(** * Cutter: src/common/Configuration.cpp

    A shallow embedding of the configuration facade of Cutter: the durable
    settings store [s] (a QSettings), the process-wide GUI state the theme
    loaders write ([qApp]'s palette and style sheet), the signals the facade
    emits, and the external engine reached through [Core()].

    The Qt library, the engine ([CutterCore]) and [ColorThemeWorker] are not
    part of Configuration.cpp; they enter the development as interfaces
    (type classes), and every function of the file is written over them. *)

From Stdlib Require Import ZArith List Permutation.
From stdpp Require Import base option gmap strings list fin_maps.

Local Open Scope Z_scope.

(** ** Qt value types *)

(** A [QColor] in the RGB colour model; [valid] is [QColor::isValid]. *)
Record QColor := mkQColor {
  valid : bool;
  red : Z;
  green : Z;
  blue : Z;
  alpha : Z
}.

#[global] Instance QColor_eq_dec : EqDecision QColor.
Proof. solve_decision. Defined.

(** The default-constructed [QColor()]. *)
Definition QColor_invalid : QColor := mkQColor false 0 0 0 255.

Definition channel_ok (z : Z) : bool := (0 <=? z) && (z <=? 255).

(** [QColor(int r, int g, int b, int a)]: components outside 0..255 leave the
    colour invalid. *)
Definition QColor_rgba (r g b a : Z) : QColor :=
  if channel_ok r && channel_ok g && channel_ok b && channel_ok a
  then mkQColor true r g b a
  else QColor_invalid.

(** [QColor(int r, int g, int b)], alpha defaulting to 255. *)
Definition QColor_rgb (r g b : Z) : QColor := QColor_rgba r g b 255.

(** [QColor::toRgb]: colours are kept in the RGB model already. *)
Definition QColor_toRgb (c : QColor) : QColor := c.

(** The [QVariant] alternatives that Configuration.cpp stores and reads:
    the invalid variant [QVariant()], bool, int, QString and QColor. *)
Inductive QVariant :=
| QVInvalid
| QVBool (b : bool)
| QVInt (i : Z)
| QVString (str : string)
| QVColor (c : QColor).

#[global] Instance QVariant_eq_dec : EqDecision QVariant.
Proof. solve_decision. Defined.

(** [QVariant::type()]. *)
Inductive QVariantType := TInvalid | TBool | TInt | TString | TColor.

#[global] Instance QVariantType_eq_dec : EqDecision QVariantType.
Proof. solve_decision. Defined.

Definition QVariant_type (v : QVariant) : QVariantType :=
  match v with
  | QVInvalid => TInvalid
  | QVBool _ => TBool
  | QVInt _ => TInt
  | QVString _ => TString
  | QVColor _ => TColor
  end.

(** The range of a C++ [int]. *)
Definition INT_MIN : Z := -2147483648.
Definition INT_MAX : Z := 2147483647.

(** JSON values as [setColorTheme] looks at them. An element of an array is
    read with [toInt], which yields the integer of an integral number that
    fits an [int] and 0 for anything else (a number that is not integral or
    lies outside the [int] range, a string, ...); [JInt i] is an integral
    number, of any size. A value of the theme object is read with
    [toArray], which yields the elements of an array and the empty array
    otherwise. *)
Inductive QJsonElem :=
| JInt (i : Z)
| JNotInt.

Inductive QJsonValue :=
| JArray (elems : list QJsonElem)
| JNotArray.

Definition QJsonValue_toArray (v : QJsonValue) : list QJsonElem :=
  match v with
  | JArray l => l
  | JNotArray => []
  end.

Definition QJsonValue_toInt (v : QJsonElem) : Z :=
  match v with
  | JInt i => if (INT_MIN <=? i) && (i <=? INT_MAX) then i else 0
  | JNotInt => 0
  end.

(** [QJsonArray::operator[]] followed by [toInt]; an index past the end
    yields an undefined value, whose [toInt] is 0. *)
Definition QJsonArray_int_at (a : list QJsonElem) (i : nat) : Z :=
  QJsonValue_toInt (default JNotInt (a !! i)).

(** The two colour roles of a [QPalette] the file reads or writes. *)
Record QPalette := mkQPalette {
  Window : QColor;
  Text : QColor
}.

#[global] Instance QPalette_eq_dec : EqDecision QPalette.
Proof. solve_decision. Defined.

Definition QPalette_setText (col : QColor) (p : QPalette) : QPalette :=
  mkQPalette (Window p) col.

Definition Qt_black : QColor := QColor_rgb 0 0 0.
Definition Qt_white : QColor := QColor_rgb 255 255 255.

(** What the file takes from the Qt library and the build: string and colour
    conversions behind [QVariant], the resource system behind
    [QFile(":...")], and the platform macro. *)
Class QtLib := {
  QString_toInt : string -> Z;
  QString_number : Z -> string;
  QColor_name : QColor -> string;
  QColor_fromName : string -> QColor;
  (** [Some text] when the resource exists, with its contents. *)
  resource : string -> option string;
  Q_OS_MACX : bool
}.

Section Variants.
Context `{QtLib}.

(** [QVariant::toInt]. *)
Definition QVariant_toInt (v : QVariant) : Z :=
  match v with
  | QVInt i => i
  | QVBool b => if b then 1 else 0
  | QVString str => QString_toInt str
  | _ => 0
  end.

(** [QVariant::toString]. *)
Definition QVariant_toString (v : QVariant) : string :=
  match v with
  | QVString str => str
  | QVInt i => QString_number i
  | QVBool b => if b then "true" else "false"
  | QVColor c => QColor_name c
  | QVInvalid => ""
  end.

(** [QVariant::value<QColor>()]. *)
Definition QVariant_toColor (v : QVariant) : QColor :=
  match v with
  | QVColor c => c
  | QVString str => QColor_fromName str
  | _ => QColor_invalid
  end.
End Variants.

(** ** The durable store: QSettings *)

Abbreviation QSettings := (gmap string QVariant).

Definition contains (key : string) (st : QSettings) : bool :=
  bool_decide (is_Some (st !! key)).

(** [QSettings::value(key, defaultValue)]. *)
Definition value (key : string) (def : QVariant) (st : QSettings) : QVariant :=
  default def (st !! key).

Definition setValue (key : string) (v : QVariant) (st : QSettings) : QSettings :=
  <[key := v]> st.

(** ** The theme registry *)

(** Modelled from the spec: the [ColorFlags] enumeration is declared in
    Configuration.h, which is not among the sources; the spec describes the
    supported appearances as a set over Light and Dark, here two bit flags. *)
Definition LightFlag : Z := 1.
Definition DarkFlag : Z := 2.

Record CutterInterfaceTheme := mkTheme {
  name : string;
  flag : Z
}.

#[global] Instance CutterInterfaceTheme_eq_dec : EqDecision CutterInterfaceTheme.
Proof. solve_decision. Defined.

Definition kCutterInterfaceThemesList : list CutterInterfaceTheme :=
  [ mkTheme "Native" (Z.lor LightFlag DarkFlag);
    mkTheme "Dark" DarkFlag;
    mkTheme "Light" LightFlag ].

(** ** The option catalogue *)

(** [asmOptions]: "All asm.* options saved as settings. Values are the
    default values." *)
Definition asmOptions_entries : list (string * QVariant) :=
  [ ("asm.esil", QVBool false);
    ("asm.pseudo", QVBool false);
    ("asm.offset", QVBool true);
    ("asm.xrefs", QVBool false);
    ("asm.indent", QVBool false);
    ("asm.describe", QVBool false);
    ("asm.slow", QVBool true);
    ("asm.lines", QVBool true);
    ("asm.lines.fcn", QVBool true);
    ("asm.flags.offset", QVBool false);
    ("asm.emu", QVBool false);
    ("asm.cmt.right", QVBool true);
    ("asm.cmt.col", QVInt 35);
    ("asm.var.summary", QVBool false);
    ("asm.bytes", QVBool false);
    ("asm.size", QVBool false);
    ("asm.bytespace", QVBool false);
    ("asm.lbytes", QVBool true);
    ("asm.nbytes", QVInt 10);
    ("asm.syntax", QVString "intel");
    ("asm.ucase", QVBool false);
    ("asm.bb.line", QVBool false);
    ("asm.capitalize", QVBool false);
    ("asm.var.sub", QVBool true);
    ("asm.var.subonly", QVBool true);
    ("asm.tabs", QVInt 5);
    ("asm.tabs.off", QVInt 5);
    ("asm.marks", QVBool false);
    ("esil.breakoninvalid", QVBool true);
    ("graph.offset", QVBool false) ].

(** The [QHash<QString, QVariant>] built from the initializer list. *)
Definition asmOptions : gmap string QVariant := list_to_map asmOptions_entries.

(** A [QHash] is iterated in an unspecified order: [iteration_of m order]
    says that [order] is a sequence in which [cbegin() .. cend()] may visit
    the entries of [m]. *)
Definition iteration_of (m : gmap string QVariant)
    (order : list (string * QVariant)) : Prop :=
  order ≡ₚ map_to_list m.

(** ** The external collaborators reached from the file *)

(** [Core()] (the CutterCore singleton in front of the engine) and
    [ThemeWorker()] (ColorThemeWorker) are declared in other files; [E] is
    the state of the engine together with the theme files it reads.
    [core_setConfig] is the [QVariant] overload, the three readers are
    [getConfigb], [getConfigi] and [getConfig]. *)
Class CutterCore (E : Type) := {
  core_cmd : string -> E -> E;
  core_setSettings : E -> E;
  core_setConfig : string -> QVariant -> E -> E;
  core_getConfigb : string -> E -> bool;
  core_getConfigi : string -> E -> Z;
  core_getConfig : string -> E -> string;
  (** The [QJsonObject] of [getTheme(name)], in iteration (key) order. *)
  themeWorker_getTheme : string -> E -> list (string * QJsonValue);
  themeWorker_isCustomTheme : string -> E -> bool
}.

(** What Configuration.h fixes and the file relies on: the name
    [getColorTheme] falls back to when no colour theme was stored. *)
Class ConfigurationH := {
  defaultColorTheme : string
}.

(** The signals of the class. *)
Inductive Signal := interfaceThemeChanged | colorsUpdated | fontsUpdated.

#[global] Instance Signal_eq_dec : EqDecision Signal.
Proof. solve_decision. Defined.

(** ** The state the member functions work on *)

Section Facade.
Context {E : Type} `{CutterCore E} `{QtLib} `{ConfigurationH}.

(** The [Configuration] object with what it reaches: its members [s] and
    [nativePalette], the engine behind [Core()], the palette, style sheet
    and widgets of [qApp], the [qWarning] log and the signals emitted so
    far (oldest first). *)
Record Configuration := mkConfiguration {
  s : gmap string QVariant;
  nativePalette : QPalette;
  core : E;
  palette : QPalette;
  styleSheet : string;
  allWidgets : list QPalette;
  warnings : list string;
  emitted : list Signal
}.

Definition with_s (f : gmap string QVariant -> gmap string QVariant)
    (c : Configuration) : Configuration :=
  mkConfiguration (f (s c)) (nativePalette c) (core c) (palette c)
    (styleSheet c) (allWidgets c) (warnings c) (emitted c).

Definition with_core (f : E -> E) (c : Configuration) : Configuration :=
  mkConfiguration (s c) (nativePalette c) (f (core c)) (palette c)
    (styleSheet c) (allWidgets c) (warnings c) (emitted c).

(** [qApp->setPalette]. *)
Definition setPalette (p : QPalette) (c : Configuration) : Configuration :=
  mkConfiguration (s c) (nativePalette c) (core c) p
    (styleSheet c) (allWidgets c) (warnings c) (emitted c).

(** [qApp->setStyleSheet]. *)
Definition setStyleSheet (sheet : string) (c : Configuration) : Configuration :=
  mkConfiguration (s c) (nativePalette c) (core c) (palette c)
    sheet (allWidgets c) (warnings c) (emitted c).

Definition with_allWidgets (f : list QPalette -> list QPalette)
    (c : Configuration) : Configuration :=
  mkConfiguration (s c) (nativePalette c) (core c) (palette c)
    (styleSheet c) (f (allWidgets c)) (warnings c) (emitted c).

Definition qWarning (msg : string) (c : Configuration) : Configuration :=
  mkConfiguration (s c) (nativePalette c) (core c) (palette c)
    (styleSheet c) (allWidgets c) (warnings c ++ [msg]) (emitted c).

Definition emit (sig : Signal) (c : Configuration) : Configuration :=
  mkConfiguration (s c) (nativePalette c) (core c) (palette c)
    (styleSheet c) (allWidgets c) (warnings c) (emitted c ++ [sig]).

(** A block of statements, run first to last. *)
Definition run (stmts : list (Configuration -> Configuration))
    (c : Configuration) : Configuration :=
  foldl (fun c stmt => stmt c) c stmts.

(** ** Accessors *)

(** Modelled from the spec: [getInterfaceTheme] is defined in
    Configuration.h, which is not among the sources; the spec has the
    index persisted under ColorPalette and index 0 for a store without
    it. *)
Definition getInterfaceTheme (c : Configuration) : Z :=
  QVariant_toInt (value "ColorPalette" (QVInt 0) (s c)).

(** Modelled from the spec: [getColorTheme] is defined in Configuration.h,
    which is not among the sources; the spec has the name persisted under
    theme. *)
Definition getColorTheme (c : Configuration) : string :=
  QVariant_toString (value "theme" (QVString defaultColorTheme) (s c)).

Definition setColor (name : string) (color : QColor)
    (c : Configuration) : Configuration :=
  with_s (setValue ("colors." +:+ name) (QVColor color)) c.

Definition getColor (name : string) (c : Configuration) : QColor :=
  if contains ("colors." +:+ name) (s c)
  then QVariant_toColor (value ("colors." +:+ name) QVInvalid (s c))
  else QVariant_toColor (value "colors.other" QVInvalid (s c)).

Definition getLastThemeOf (currInterfaceTheme : CutterInterfaceTheme)
    (c : Configuration) : string :=
  QVariant_toString
    (value ("lastThemeOf." +:+ name currInterfaceTheme)
           (QVString (getColorTheme c)) (s c)).

Definition setLastThemeOf (currInterfaceTheme : CutterInterfaceTheme)
    (theme : string) (c : Configuration) : Configuration :=
  with_s (setValue ("lastThemeOf." +:+ name currInterfaceTheme) (QVString theme)) c.

(** ** Theme loaders *)

Definition loadBaseThemeNative : Configuration -> Configuration :=
  run [
    (fun c =>
       match resource ":native/native.qss" with
       | None => qWarning "Can't find Native theme stylesheet." c
       | Some stylesheet => setStyleSheet stylesheet c
       end);
    (fun c => setPalette (nativePalette c) c);
    (fun c => with_allWidgets (map (fun _ => nativePalette c)) c);
    setColor "gui.cflow" (QColor_rgb 0 0 0);
    setColor "gui.imports" (QColor_rgb 50 140 255);
    setColor "gui.main" (QColor_rgb 0 128 0);
    setColor "gui.navbar.seek" (QColor_rgb 255 0 0);
    setColor "gui.navbar.pc" (QColor_rgb 66 238 244);
    setColor "gui.navbar.code" (QColor_rgb 104 229 69);
    setColor "gui.navbar.str" (QColor_rgb 69 104 229);
    setColor "gui.navbar.sym" (QColor_rgb 229 150 69);
    setColor "gui.navbar.empty" (QColor_rgb 100 100 100);
    setColor "gui.breakpoint_background" (QColor_rgb 233 143 143);
    setColor "gui.item_invalid" (QColor_rgb 155 155 155);
    setColor "gui.item_unsafe" (QColor_rgb 255 129 123);
    setColor "gui.overview.node" (QColor_rgb 200 200 200);
    setColor "gui.tooltip.background" (QColor_rgb 250 252 254);
    setColor "gui.tooltip.foreground" (QColor_rgb 42 44 46)
  ].

(** The two colour tables of [loadNativeTheme]. *)
Definition loadNativeTheme_dark : Configuration -> Configuration :=
  run [
    setColor "gui.border" (QColor_rgb 0 0 0);
    setColor "gui.background" (QColor_rgb 30 30 30);
    setColor "gui.alt_background" (QColor_rgb 42 42 42);
    setColor "gui.disass_selected" (QColor_rgb 35 35 35);
    setColor "lineHighlight" (QColor_rgba 255 255 255 15);
    setColor "wordHighlight" (QColor_rgba 20 20 20 255);
    setColor "highlightPC" (QColor_rgb 87 26 7);
    setColor "gui.tooltip.background" (QColor_rgb 42 44 46);
    setColor "gui.tooltip.foreground" (QColor_rgb 250 252 254);
    setColor "gui.dataoffset" (QColor_rgb 255 255 255);
    setColor "gui.overview.fill" (QColor_rgba 255 255 255 40);
    setColor "gui.overview.border" (QColor_rgba 99 218 232 50)
  ].

Definition loadNativeTheme_light : Configuration -> Configuration :=
  run [
    setColor "gui.border" (QColor_rgb 0 0 0);
    setColor "gui.background" (QColor_rgb 255 255 255);
    setColor "gui.alt_background" (QColor_rgb 245 250 255);
    setColor "gui.disass_selected" (QColor_rgb 255 255 255);
    setColor "lineHighlight" (QColor_rgba 210 210 255 150);
    setColor "wordHighlight" (QColor_rgba 179 119 214 60);
    setColor "highlightPC" (QColor_rgb 214 255 210);
    setColor "gui.dataoffset" (QColor_rgb 0 0 0);
    setColor "gui.overview.fill" (QColor_rgba 175 217 234 65);
    setColor "gui.overview.border" (QColor_rgba 99 218 232 50)
  ].

Definition loadLightTheme : Configuration -> Configuration :=
  run [
    (fun c =>
       match resource ":lightstyle/light.qss" with
       | None => qWarning "Can't find Light theme stylesheet." c
       | Some stylesheet =>
           let p := QPalette_setText Qt_black (palette c) in
           setStyleSheet stylesheet (setPalette p c)
       end);
    setColor "gui.border" (QColor_rgb 145 200 250);
    setColor "gui.background" (QColor_rgb 255 255 255);
    setColor "gui.alt_background" (QColor_rgb 245 250 255);
    setColor "gui.disass_selected" (QColor_rgb 255 255 255);
    setColor "lineHighlight" (QColor_rgba 210 210 255 150);
    setColor "wordHighlight" (QColor_rgba 179 119 214 60);
    setColor "highlightPC" (QColor_rgb 214 255 210);
    setColor "gui.navbar.empty" (QColor_rgb 220 236 245);
    setColor "gui.navbar.err" (QColor_rgb 3 170 245);
    setColor "gui.tooltip.background" (QColor_rgb 250 252 254);
    setColor "gui.tooltip.foreground" (QColor_rgb 42 44 46);
    setColor "gui.overview.node" (QColor_rgb 245 250 255);
    setColor "gui.overview.fill" (QColor_rgba 175 217 234 65);
    setColor "gui.overview.border" (QColor_rgba 99 218 232 50)
  ].

(** The text appended to the dark style sheet under [Q_OS_MACX]. *)
Definition macx_dock_title : string :=
  "QDockWidget::title" +:+ "{" +:+ "    background-color: #31363b;" +:+
  "    text-align: center;" +:+ "    height: 12px;" +:+ "}".

Definition loadBaseThemeDark : Configuration -> Configuration :=
  run [
    (fun c =>
       match resource ":qdarkstyle/style.qss" with
       | None => qWarning "Can't find Dark theme stylesheet." c
       | Some stylesheet =>
           let stylesheet :=
             if Q_OS_MACX then stylesheet +:+ macx_dock_title else stylesheet in
           let p := QPalette_setText Qt_white (palette c) in
           setStyleSheet stylesheet (setPalette p c)
       end);
    setColor "gui.cflow" (QColor_rgb 255 255 255);
    setColor "gui.dataoffset" (QColor_rgb 255 255 255);
    setColor "gui.imports" (QColor_rgb 50 140 255);
    setColor "gui.item_invalid" (QColor_rgb 155 155 155);
    setColor "gui.item_unsafe" (QColor_rgb 255 129 123);
    setColor "gui.main" (QColor_rgb 0 128 0);
    setColor "gui.navbar.seek" (QColor_rgb 233 86 86);
    setColor "gui.navbar.pc" (QColor_rgb 66 238 244);
    setColor "gui.navbar.code" (QColor_rgb 130 200 111);
    setColor "gui.navbar.str" (QColor_rgb 111 134 216);
    setColor "gui.navbar.sym" (QColor_rgb 221 163 104);
    setColor "gui.navbar.empty" (QColor_rgb 100 100 100);
    setColor "highlightPC" (QColor_rgb 87 26 7);
    setColor "gui.breakpoint_background" (QColor_rgb 140 76 76);
    setColor "gui.overview.node" (QColor_rgb 100 100 100);
    setColor "gui.overview.fill" (QColor_rgba 255 255 255 40);
    setColor "gui.overview.border" (QColor_rgba 99 218 232 50)
  ].

Definition loadDarkTheme : Configuration -> Configuration :=
  run [
    loadBaseThemeDark;
    setColor "gui.border" (QColor_rgb 100 100 100);
    setColor "gui.background" (QColor_rgb 37 40 43);
    setColor "gui.alt_background" (QColor_rgb 28 31 36);
    setColor "gui.disass_selected" (QColor_rgb 31 34 40);
    setColor "gui.tooltip.background" (QColor_rgb 42 44 46);
    setColor "gui.tooltip.foreground" (QColor_rgb 250 252 254);
    setColor "lineHighlight" (QColor_rgba 21 29 29 150);
    setColor "wordHighlight" (QColor_rgba 52 58 71 255)
  ].

(** ** Selecting the interface theme *)

(** [setInterfaceTheme], [loadNativeTheme], [windowColorIsDark] and
    [getCurrentTheme] call each other: [getCurrentTheme] re-enters
    [setInterfaceTheme] when the stored index is out of range. The three
    callees are written over the function they re-enter, and
    [setInterfaceTheme] closes the cycle on a call budget [fuel]; a call
    that exhausts it has no result ([None]). *)
Section Reentry.
Variable setInterfaceTheme_rec : Z -> Configuration -> option Configuration.

Definition getCurrentTheme_with (c : Configuration)
    : option (CutterInterfaceTheme * Configuration) :=
  let i := getInterfaceTheme c in
  if (i <? 0) || (i >=? Z.of_nat (length kCutterInterfaceThemesList)) then
    let i := 0 in
    c ← setInterfaceTheme_rec i c;
    theme ← kCutterInterfaceThemesList !! Z.to_nat i;
    Some (theme, c)
  else
    theme ← kCutterInterfaceThemesList !! Z.to_nat i;
    Some (theme, c).

Definition windowColorIsDark_with (c : Configuration)
    : option (bool * Configuration) :=
  '(theme, c) ← getCurrentTheme_with c;
  let currentThemeColorFlags := flag theme in
  if currentThemeColorFlags =? LightFlag then Some (false, c)
  else if currentThemeColorFlags =? DarkFlag then Some (true, c)
  else
    let windowColor := QColor_toRgb (Window (palette c)) in
    Some (red windowColor + green windowColor + blue windowColor <? 382, c).

Definition loadNativeTheme_with (c : Configuration) : option Configuration :=
  let c := loadBaseThemeNative c in
  '(dark, c) ← windowColorIsDark_with c;
  if dark : bool then Some (loadNativeTheme_dark c)
  else Some (loadNativeTheme_light c).
End Reentry.

Fixpoint setInterfaceTheme (fuel : nat) (theme : Z) (c : Configuration)
    : option Configuration :=
  match fuel with
  | O => None
  | S fuel =>
      let theme :=
        if (theme >=? Z.of_nat (length kCutterInterfaceThemesList)) || (theme <? 0)
        then 0 else theme in
      let c := with_s (setValue "ColorPalette" (QVInt theme)) c in
      entry ← kCutterInterfaceThemesList !! Z.to_nat theme;
      let themeName := name entry in
      c ← (if String.eqb themeName "Native" then
             loadNativeTheme_with (setInterfaceTheme fuel) c
           else if String.eqb themeName "Dark" then
             Some (loadDarkTheme c)
           else if String.eqb themeName "Light" then
             Some (loadLightTheme c)
           else
             loadNativeTheme_with (setInterfaceTheme fuel) c);
      Some (emit colorsUpdated (emit interfaceThemeChanged c))
  end.

Definition getCurrentTheme (fuel : nat) :=
  getCurrentTheme_with (setInterfaceTheme fuel).

Definition windowColorIsDark (fuel : nat) :=
  windowColorIsDark_with (setInterfaceTheme fuel).

Definition loadNativeTheme (fuel : nat) :=
  loadNativeTheme_with (setInterfaceTheme fuel).

Definition getLogoFile (fuel : nat) (c : Configuration)
    : option (string * Configuration) :=
  '(dark, c) ← windowColorIsDark fuel c;
  Some (if dark : bool then ":/img/cutter_white_plain.svg"%string
        else ":/img/cutter_plain.svg"%string, c).

(** ** Selecting the colour theme *)

(** The body of the loop over the theme object in [setColorTheme]. *)
Definition setColorTheme_entry (c : Configuration)
    (it : string * QJsonValue) : Configuration :=
  let rgb := QJsonValue_toArray (snd it) in
  if negb (Nat.eqb (length rgb) 4) then c
  else setColor (fst it)
         (QColor_rgba (QJsonArray_int_at rgb 0) (QJsonArray_int_at rgb 1)
                      (QJsonArray_int_at rgb 2) (QJsonArray_int_at rgb 3)) c.

(** [setColorTheme] up to the end of its loop: the directive to the
    engine, the persisted name, and the colours the theme reports written
    into the colour cache. *)
Definition setColorTheme_colors (theme : string) (c : Configuration)
    : Configuration :=
  let c :=
    if String.eqb theme "default" then
      with_s (setValue "theme" (QVString "default")) (with_core (core_cmd "ecd") c)
    else
      with_s (setValue "theme" (QVString theme))
             (with_core (core_cmd ("eco " +:+ theme)) c) in
  let colorTheme := themeWorker_getTheme theme (core c) in
  foldl setColorTheme_entry c colorTheme.

Definition setColorTheme (fuel : nat) (theme : string) (c : Configuration)
    : option Configuration :=
  let c := setColorTheme_colors theme c in
  (* Trick Cutter to load colors that are not specified in standard theme *)
  c ← (if negb (themeWorker_isCustomTheme theme (core c))
       then setInterfaceTheme fuel (getInterfaceTheme c) c
       else Some c);
  Some (emit colorsUpdated c).

(** ** The option mirror *)

Definition setConfig (key : string) (v : QVariant) (c : Configuration)
    : Configuration :=
  let c := if contains key asmOptions then with_s (setValue key v) c else c in
  with_core (core_setConfig key v) c.

Definition getConfigVar (key : string) (c : Configuration) : QVariant :=
  match asmOptions !! key with
  | Some d =>
      match QVariant_type d with
      | TBool => QVBool (core_getConfigb key (core c))
      | TInt => QVInt (core_getConfigi key (core c))
      | _ => QVString (core_getConfig key (core c))
      end
  | None => QVInvalid
  end.

(** The two loops over [asmOptions]; [order] is the sequence in which the
    iterator visits the entries. *)
Definition resetToDefaultAsmOptions (order : list (string * QVariant))
    (c : Configuration) : Configuration :=
  foldl (fun c it => setConfig (fst it) (snd it) c) c order.

Definition applySavedAsmOptions (order : list (string * QVariant))
    (c : Configuration) : Configuration :=
  foldl (fun c it =>
           with_core (core_setConfig (fst it) (value (fst it) (snd it) (s c))) c)
        c order.

Definition loadInitial (fuel : nat) (order : list (string * QVariant))
    (c : Configuration) : option Configuration :=
  c ← setInterfaceTheme fuel (getInterfaceTheme c) c;
  c ← setColorTheme fuel (getColorTheme c) c;
  Some (applySavedAsmOptions order c).

Definition resetAll (fuel : nat) (order : list (string * QVariant))
    (c : Configuration) : option Configuration :=
  let c := with_core (core_cmd "e-") c in
  let c := with_core core_setSettings c in
  (* Delete the file so no extra configuration is in it. *)
  let c := with_s (fun _ => ∅) c in
  c ← loadInitial fuel order c;
  Some (emit fontsUpdated c).

(** ** First execution *)

Definition isFirstExecution (c : Configuration) : bool * Configuration :=
  if contains "firstExecution" (s c) then (false, c)
  else (true, with_s (setValue "firstExecution" (QVBool false)) c).

(** The results of [n] calls of [isFirstExecution] in a row, first call
    first, with the state they leave. *)
Fixpoint isFirstExecution_calls (n : nat) (c : Configuration)
    : list bool * Configuration :=
  match n with
  | O => ([], c)
  | S n =>
      let '(b, c) := isFirstExecution c in
      let '(bs, c) := isFirstExecution_calls n c in
      (b :: bs, c)
  end.
End Facade.

(** ** A reference environment

    A plain instance of the three interfaces, used to run the functions on
    concrete inputs: the engine is a key-value namespace with the log of the
    commands it received and a table of colour themes (name, whether it is a
    custom theme, its colours); no style sheet resource is installed. *)

Record RefEngine := mkRefEngine {
  ref_config : gmap string QVariant;
  ref_commands : list string;
  ref_themes : list (string * (bool * list (string * QJsonValue)))
}.

Fixpoint ref_theme_in (name : string)
    (themes : list (string * (bool * list (string * QJsonValue))))
    : option (bool * list (string * QJsonValue)) :=
  match themes with
  | [] => None
  | (n, entry) :: rest =>
      if String.eqb n name then Some entry else ref_theme_in name rest
  end.

Definition ref_theme (name : string) (e : RefEngine) :=
  ref_theme_in name (ref_themes e).

Definition refCore : CutterCore RefEngine := {|
  core_cmd cmd e :=
    mkRefEngine (ref_config e) (ref_commands e ++ [cmd]) (ref_themes e);
  core_setSettings e := e;
  core_setConfig key v e :=
    mkRefEngine (<[key := v]> (ref_config e)) (ref_commands e) (ref_themes e);
  core_getConfigb key e :=
    match ref_config e !! key with Some (QVBool b) => b | _ => false end;
  core_getConfigi key e :=
    match ref_config e !! key with Some (QVInt i) => i | _ => 0 end;
  core_getConfig key e :=
    match ref_config e !! key with Some (QVString str) => str | _ => "" end;
  themeWorker_getTheme name e :=
    match ref_theme name e with Some entry => snd entry | None => [] end;
  themeWorker_isCustomTheme name e :=
    match ref_theme name e with Some entry => fst entry | None => false end
|}.

Definition refQt : QtLib := {|
  QString_toInt _ := 0;
  QString_number _ := "";
  QColor_name _ := "";
  QColor_fromName _ := QColor_invalid;
  resource _ := None;
  Q_OS_MACX := false
|}.

Definition refH : ConfigurationH := {| defaultColorTheme := "default" |}.

Definition ref_palette : QPalette :=
  mkQPalette (QColor_rgb 239 239 239) (QColor_rgb 0 0 0).

(** A freshly started process over an empty durable store. *)
Definition ref_fresh (e : RefEngine) : @Configuration RefEngine :=
  mkConfiguration ∅ ref_palette e ref_palette "" [] [] [].

(** ** Vocabulary of the statements *)

Section Vocabulary.
Context {E : Type} `{CutterCore E} `{QtLib} `{ConfigurationH}.

(** A statement that leaves the engine, the signals and the native palette
    alone and writes the durable store under colors.* keys only. *)
Definition frames (f : @Configuration E -> @Configuration E) : Prop :=
  forall c,
    core (f c) = core c /\
    emitted (f c) = emitted c /\
    nativePalette (f c) = nativePalette c /\
    forall key, (forall n, key <> "colors." +:+ n) -> s (f c) !! key = s c !! key.

(** The sum-of-channels test of [windowColorIsDark] on a palette. *)
Definition window_sum_dark (p : QPalette) : bool :=
  red (Window p) + green (Window p) + blue (Window p) <? 382.

(** The index [setInterfaceTheme] persists for a requested one. *)
Definition clamped (theme : Z) : Z :=
  if (theme >=? 3) || (theme <? 0) then 0 else theme.

(** What [loadNativeTheme] amounts to when the stored index is the Native
    one: the base load puts the native palette in place, and the colour
    table follows the window colour of that palette. *)
Definition loadNativeTheme_resolved (c : @Configuration E) : @Configuration E :=
  let c1 := loadBaseThemeNative c in
  if window_sum_dark (nativePalette c) then loadNativeTheme_dark c1
  else loadNativeTheme_light c1.

(** The loader [setInterfaceTheme] dispatches to for a clamped index. *)
Definition loader_of (theme : Z) : @Configuration E -> @Configuration E :=
  match theme with
  | 1 => loadDarkTheme
  | 2 => loadLightTheme
  | _ => loadNativeTheme_resolved
  end.

(** Whether an interface theme supports an appearance. *)
Definition supports (appearance : Z) (t : CutterInterfaceTheme) : bool :=
  negb (Z.land (flag t) appearance =? 0).

Definition only_light (t : CutterInterfaceTheme) : bool :=
  supports LightFlag t && negb (supports DarkFlag t).

Definition only_dark (t : CutterInterfaceTheme) : bool :=
  supports DarkFlag t && negb (supports LightFlag t).

(** The engine hands back, through the reader of the value's type, what
    [setConfig] stored under a key. *)
Definition core_reads_back (key : string) (v : QVariant) (e : E) : Prop :=
  match v with
  | QVBool b => core_getConfigb key (core_setConfig key v e) = b
  | QVInt i => core_getConfigi key (core_setConfig key v e) = i
  | QVString str => core_getConfig key (core_setConfig key v e) = str
  | _ => True
  end.

(** The engine treats the catalogue keys as independent cells: writing a
    key twice with one value is writing it once, and writes to two
    different keys can be swapped. *)
Definition core_keyed : Prop :=
  (forall key v (e : E), is_Some (asmOptions !! key) ->
     core_setConfig key v (core_setConfig key v e) = core_setConfig key v e) /\
  (forall k1 v1 k2 v2 (e : E),
     is_Some (asmOptions !! k1) -> is_Some (asmOptions !! k2) -> k1 <> k2 ->
     core_setConfig k1 v1 (core_setConfig k2 v2 e)
     = core_setConfig k2 v2 (core_setConfig k1 v1 e)).

(** The engine writes of one pass of [applySavedAsmOptions] over [st]. *)
Definition saved_writes (st : gmap string QVariant)
    (order : list (string * QVariant)) (e : E) : E :=
  foldl (fun e it => core_setConfig (fst it) (value (fst it) (snd it) st) e) e order.

(** The engine writes of [resetToDefaultAsmOptions]. *)
Definition default_writes (order : list (string * QVariant)) (e : E) : E :=
  foldl (fun e it => core_setConfig (fst it) (snd it) e) e order.
End Vocabulary.

(** ** Concrete states *)

Section ReferenceStates.
#[local] Existing Instances refCore refQt refH.

(** An engine that knows one custom theme, which gives the seek marker and
    the empty area of the navigation bar colours of its own. *)
Definition ref_engine : RefEngine :=
  mkRefEngine ∅ []
    [ ("MyCustom",
        (true,
         [ ("gui.navbar.empty", JArray [JInt 9; JInt 8; JInt 7; JInt 255]);
           ("gui.navbar.seek", JArray [JInt 1; JInt 2; JInt 3; JInt 255]) ])) ].

(** The Dark interface theme in force over a store that has nothing else. *)
Definition ref_dark : @Configuration RefEngine :=
  default (ref_fresh ref_engine)
    (setInterfaceTheme 1 1 (ref_fresh ref_engine)).

(** A store where Dark was last used with the theme solarized while the
    current colour theme is default. *)
Definition ref_last_used : @Configuration RefEngine :=
  mkConfiguration
    {[ "lastThemeOf.Dark" := QVString "solarized"; "theme" := QVString "default" ]}
    ref_palette ref_engine ref_palette "" [] [] [].

(** An engine that knows a standard theme, which reports a colour of its own
    for the empty area of the navigation bar, and a custom theme with a
    component that does not fit an [int] and one that is no colour
    channel. *)
Definition ref_engine_themes : RefEngine :=
  mkRefEngine ∅ []
    [ ("ayu",
        (false,
         [ ("gui.navbar.empty", JArray [JInt 9; JInt 8; JInt 7; JInt 255]) ]));
      ("Wide",
        (true,
         [ ("gui.main", JArray [JInt 4294967296; JInt 1; JInt 2; JInt 255]);
           ("gui.navbar.seek", JArray [JInt 300; JInt 0; JInt 0; JInt 255]) ])) ].

(** The Dark interface theme in force over that engine. *)
Definition ref_dark_themes : @Configuration RefEngine :=
  default (ref_fresh ref_engine_themes)
    (setInterfaceTheme 1 1 (ref_fresh ref_engine_themes)).
End ReferenceStates.

(** ** Preferences and typed option reads *)

(** What the preference accessors take from Qt besides [QtLib]: lower-casing
    behind [QVariant::toBool], and the two [QDir] functions. *)
Class QtPaths := {
  QString_toLower : string -> string;
  QDir_toNativeSeparators : string -> string;
  QDir_homePath : string
}.

Section Preferences.
Context {E : Type} `{CutterCore E} `{QtLib} `{QtPaths}.

(** [QVariant::toBool]: a string is false when, lower-cased, it is empty,
    "0" or "false". *)
Definition QVariant_toBool (v : QVariant) : bool :=
  match v with
  | QVBool b => b
  | QVInt i => negb (i =? 0)
  | QVString str =>
      let str := QString_toLower str in
      negb (String.eqb str "" || String.eqb str "0" || String.eqb str "false")
  | _ => false
  end.

Definition getConfigBool (key : string) (c : @Configuration E) : bool :=
  QVariant_toBool (getConfigVar key c).

Definition getConfigInt (key : string) (c : @Configuration E) : Z :=
  QVariant_toInt (getConfigVar key c).

Definition getConfigString (key : string) (c : @Configuration E) : string :=
  QVariant_toString (getConfigVar key c).

Definition setDirProjects (dir : string) (c : @Configuration E) : @Configuration E :=
  with_s (setValue "dir.projects" (QVString (QDir_toNativeSeparators dir))) c.

Definition getDirProjects (c : @Configuration E) : string * @Configuration E :=
  let projectsDir := QVariant_toString (value "dir.projects" QVInvalid (s c)) in
  if String.eqb projectsDir "" then
    let projectsDir := core_getConfig "dir.projects" (core c) in
    let c := setDirProjects projectsDir c in
    (QDir_toNativeSeparators projectsDir, c)
  else
    (QDir_toNativeSeparators projectsDir, c).

Definition getRecentFolder (c : @Configuration E) : string :=
  let recentFolder :=
    QVariant_toString (value "dir.recentFolder" (QVString QDir_homePath) (s c)) in
  QDir_toNativeSeparators recentFolder.

Definition setRecentFolder (dir : string) (c : @Configuration E) : @Configuration E :=
  with_s (setValue "dir.recentFolder" (QVString (QDir_toNativeSeparators dir))) c.

Definition setNewFileLastClicked (lastClicked : Z) (c : @Configuration E)
    : @Configuration E :=
  with_s (setValue "newFileLastClicked" (QVInt lastClicked)) c.

Definition getNewFileLastClicked (c : @Configuration E) : Z :=
  QVariant_toInt (value "newFileLastClicked" QVInvalid (s c)).

Definition getAutoUpdateEnabled (c : @Configuration E) : bool :=
  QVariant_toBool (value "autoUpdateEnabled" (QVBool false) (s c)).

Definition setAutoUpdateEnabled (au : bool) (c : @Configuration E) : @Configuration E :=
  with_s (setValue "autoUpdateEnabled" (QVBool au)) c.
End Preferences.

(** The reference environment for these: paths are left as they are. *)
Definition refPaths : QtPaths := {|
  QString_toLower str := str;
  QDir_toNativeSeparators dir := dir;
  QDir_homePath := "/home/user"
|}.

(** ** Vocabulary of the further statements *)

Section MoreVocabulary.
Context {E : Type} `{CutterCore E} `{QtLib}.

(** A statement that lays a fixed table over the durable store: it reads no
    key and removes none. *)
Definition overlays (f : @Configuration E -> @Configuration E)
    (table : gmap string QVariant) : Prop :=
  forall c, s (f c) = table ∪ s c.

(** The same state over an empty durable store. *)
Definition cleared (c : @Configuration E) : @Configuration E :=
  with_s (fun _ => ∅) c.

(** The style sheet resource and the warning of the loader of a clamped
    index. *)
Definition stylesheet_of (theme : Z) : string * string :=
  match theme with
  | 1 => (":qdarkstyle/style.qss", "Can't find Dark theme stylesheet.")
  | 2 => (":lightstyle/light.qss", "Can't find Light theme stylesheet.")
  | _ => (":native/native.qss", "Can't find Native theme stylesheet.")
  end.

(** The values one pass of [applySavedAsmOptions] writes over a store. *)
Definition saved_values (st : gmap string QVariant)
    (order : list (string * QVariant)) : list (string * QVariant) :=
  map (fun it => (it.1, value it.1 it.2 st)) order.
End MoreVocabulary.

(** * Properties *)

Section Properties.
Context {E : Type} `{CutterCore E} `{QtLib} `{ConfigurationH}.
Implicit Types (c : @Configuration E) (key : string) (v : QVariant).

(** ** The durable store *)

Lemma contains_true key (st : gmap string QVariant) :
  contains key st = true <-> is_Some (st !! key).
Proof. unfold contains. rewrite bool_decide_eq_true. reflexivity. Qed.

Lemma contains_false key (st : gmap string QVariant) :
  contains key st = false <-> st !! key = None.
Proof.
  unfold contains. rewrite bool_decide_eq_false, eq_None_not_Some. reflexivity.
Qed.

Lemma value_setValue_same key v def (st : gmap string QVariant) :
  value key def (setValue key v st) = v.
Proof. unfold value, setValue. now rewrite lookup_insert_eq. Qed.

Lemma value_setValue_other key key' v def (st : gmap string QVariant) :
  key <> key' -> value key' def (setValue key v st) = value key' def st.
Proof. intros Hne. unfold value, setValue. now rewrite lookup_insert_ne. Qed.

(** No key of the colour cache is the key of the interface theme index, of
    the colour theme name, of a last-used mapping or of the first-run flag. *)
Lemma ColorPalette_not_color n : "ColorPalette" <> "colors." +:+ n.
Proof. discriminate. Qed.

Lemma theme_not_color n : "theme" <> "colors." +:+ n.
Proof. discriminate. Qed.

Lemma lastThemeOf_not_color t n : "lastThemeOf." +:+ t <> "colors." +:+ n.
Proof. discriminate. Qed.

(** ** Statements that only touch the colour cache and the GUI *)

Lemma frames_setColor n col : frames (E:=E) (setColor n col).
Proof.
  intros c. repeat split. intros key Hkey. cbn.
  unfold setValue. rewrite lookup_insert_ne; [reflexivity|]. intros Heq. now apply (Hkey n).
Qed.

Lemma frames_setPalette (f : @Configuration E -> QPalette) :
  frames (fun c => setPalette (f c) c).
Proof. intros c. repeat split. Qed.

Lemma frames_setStyleSheet sheet : frames (E:=E) (setStyleSheet sheet).
Proof. intros c. repeat split. Qed.

Lemma frames_qWarning msg : frames (E:=E) (qWarning msg).
Proof. intros c. repeat split. Qed.

Lemma frames_with_allWidgets (f : @Configuration E -> list QPalette -> list QPalette) :
  frames (fun c => with_allWidgets (f c) c).
Proof. intros c. repeat split. Qed.

Lemma frames_compose (f g : @Configuration E -> @Configuration E) :
  frames f -> frames g -> frames (fun c => g (f c)).
Proof.
  intros Hf Hg c.
  destruct (Hf c) as (Hc & He & Hn & Hs), (Hg (f c)) as (Hc' & He' & Hn' & Hs').
  repeat split; try congruence.
  intros key Hkey. rewrite Hs', Hs by assumption. reflexivity.
Qed.

Lemma frames_run (stmts : list (@Configuration E -> @Configuration E)) :
  Forall frames stmts -> frames (run stmts).
Proof.
  induction 1 as [|f stmts Hf _ IH].
  - intros c. repeat split.
  - change (run (f :: stmts)) with (fun c => run stmts (f c)).
    now apply frames_compose.
Qed.

Lemma frames_resource_or_warn path msg
    (k : string -> @Configuration E -> @Configuration E) :
  (forall sheet, frames (k sheet)) ->
  frames (fun c => match resource path with
                   | None => qWarning msg c
                   | Some sheet => k sheet c
                   end).
Proof.
  intros Hk. destruct (resource path) as [sheet|].
  - apply Hk.
  - apply frames_qWarning.
Qed.

Create HintDb frames.
#[local] Hint Resolve frames_setColor frames_setStyleSheet frames_qWarning : frames.

Ltac frames_block :=
  apply frames_run; repeat (apply Forall_cons; split);
  try apply Forall_nil; auto with frames.

Lemma frames_loadBaseThemeNative : frames (E:=E) loadBaseThemeNative.
Proof.
  unfold loadBaseThemeNative. frames_block.
  - apply frames_resource_or_warn. auto with frames.
  - apply (frames_setPalette nativePalette).
  - apply (frames_with_allWidgets (fun c => map (fun _ => nativePalette c))).
Qed.

Lemma frames_loadNativeTheme_dark : frames (E:=E) loadNativeTheme_dark.
Proof. unfold loadNativeTheme_dark. frames_block. Qed.

Lemma frames_loadNativeTheme_light : frames (E:=E) loadNativeTheme_light.
Proof. unfold loadNativeTheme_light. frames_block. Qed.

Lemma frames_loadLightTheme : frames (E:=E) loadLightTheme.
Proof.
  unfold loadLightTheme. frames_block.
  apply frames_resource_or_warn. intros sheet.
  apply (frames_compose (fun c => setPalette (QPalette_setText Qt_black (palette c)) c)
                        (setStyleSheet sheet)).
  - apply (frames_setPalette (fun c => QPalette_setText Qt_black (palette c))).
  - apply frames_setStyleSheet.
Qed.

Lemma frames_loadBaseThemeDark : frames (E:=E) loadBaseThemeDark.
Proof.
  unfold loadBaseThemeDark. frames_block.
  apply frames_resource_or_warn. intros sheet.
  apply (frames_compose (fun c => setPalette (QPalette_setText Qt_white (palette c)) c)
                        (setStyleSheet _)).
  - apply (frames_setPalette (fun c => QPalette_setText Qt_white (palette c))).
  - apply frames_setStyleSheet.
Qed.

Lemma frames_loadDarkTheme : frames (E:=E) loadDarkTheme.
Proof.
  pose proof frames_loadBaseThemeDark.
  unfold loadDarkTheme. frames_block.
Qed.

Lemma frames_loadNativeTheme_resolved : frames (E:=E) loadNativeTheme_resolved.
Proof.
  intros c. unfold loadNativeTheme_resolved. cbv zeta.
  destruct (window_sum_dark (nativePalette c)).
  - apply (frames_compose loadBaseThemeNative loadNativeTheme_dark).
    + apply frames_loadBaseThemeNative.
    + apply frames_loadNativeTheme_dark.
  - apply (frames_compose loadBaseThemeNative loadNativeTheme_light).
    + apply frames_loadBaseThemeNative.
    + apply frames_loadNativeTheme_light.
Qed.

Lemma frames_loader_of i : frames (E:=E) (loader_of i).
Proof.
  unfold loader_of.
  destruct i as [|[p|p|]|]; try destruct p;
    first [ apply frames_loadNativeTheme_resolved
          | apply frames_loadLightTheme
          | apply frames_loadDarkTheme ].
Qed.

(** ** Selecting the interface theme *)

Lemma getInterfaceTheme_frames (f : @Configuration E -> @Configuration E) c :
  frames f -> getInterfaceTheme (f c) = getInterfaceTheme c.
Proof.
  intros Hf. destruct (Hf c) as (_ & _ & _ & Hs).
  unfold getInterfaceTheme, value. rewrite Hs; [reflexivity|].
  apply ColorPalette_not_color.
Qed.

Lemma palette_loadBaseThemeNative c :
  palette (loadBaseThemeNative c) = nativePalette c.
Proof.
  unfold loadBaseThemeNative, run. cbn [foldl].
  destruct (resource ":native/native.qss"); reflexivity.
Qed.

Lemma clamped_range theme : clamped theme = 0 \/ clamped theme = 1 \/ clamped theme = 2.
Proof.
  unfold clamped.
  destruct (theme >=? 3) eqn:Hhi, (theme <? 0) eqn:Hlo; cbn; lia.
Qed.

Lemma clamped_in_range theme : 0 <= theme < 3 -> clamped theme = theme.
Proof.
  intros Hr. unfold clamped.
  destruct (theme >=? 3) eqn:Hhi, (theme <? 0) eqn:Hlo; cbn; lia.
Qed.

Lemma clamped_out_of_range theme : theme < 0 \/ 3 <= theme -> clamped theme = 0.
Proof.
  intros Hr. unfold clamped.
  destruct (theme >=? 3) eqn:Hhi, (theme <? 0) eqn:Hlo; cbn; lia.
Qed.

(** With an index in range stored, [getCurrentTheme] does not re-enter
    [setInterfaceTheme]. *)
Lemma getCurrentTheme_with_stored rec c :
  0 <= getInterfaceTheme c < 3 ->
  exists theme,
    kCutterInterfaceThemesList !! Z.to_nat (getInterfaceTheme c) = Some theme /\
    getCurrentTheme_with rec c = Some (theme, c).
Proof.
  intros Hr. unfold getCurrentTheme_with. cbv zeta.
  change (Z.of_nat (length kCutterInterfaceThemesList)) with 3.
  replace ((getInterfaceTheme c <? 0) || (getInterfaceTheme c >=? 3)) with false by lia.
  destruct (kCutterInterfaceThemesList !! Z.to_nat (getInterfaceTheme c)) as [theme|] eqn:Hth.
  - exists theme. split; reflexivity.
  - apply lookup_ge_None in Hth. cbn in Hth. lia.
Qed.

Lemma loadNativeTheme_with_stored rec c :
  getInterfaceTheme c = 0 ->
  loadNativeTheme_with rec c = Some (loadNativeTheme_resolved c).
Proof.
  intros Hi. unfold loadNativeTheme_with, windowColorIsDark_with. cbv zeta.
  pose proof (getInterfaceTheme_frames loadBaseThemeNative c frames_loadBaseThemeNative) as Hi'.
  rewrite Hi in Hi'.
  destruct (getCurrentTheme_with_stored rec (loadBaseThemeNative c)) as (theme & Hth & ->);
    [lia|].
  rewrite Hi' in Hth. cbn in Hth. injection Hth as <-.
  cbn -[loadBaseThemeNative loadNativeTheme_dark loadNativeTheme_light].
  unfold loadNativeTheme_resolved, window_sum_dark, QColor_toRgb. cbv zeta.
  rewrite palette_loadBaseThemeNative.
  destruct (_ <? 382); reflexivity.
Qed.

(** [setInterfaceTheme] returns on every call that has budget for itself,
    and what it does is: persist the clamped index, run the loader of that
    index, emit the two signals. *)
Lemma setInterfaceTheme_resolved n theme c :
  setInterfaceTheme (S n) theme c
  = Some (emit colorsUpdated (emit interfaceThemeChanged
            (loader_of (clamped theme)
               (with_s (setValue "ColorPalette" (QVInt (clamped theme))) c)))).
Proof.
  cbn [setInterfaceTheme].
  change (Z.of_nat (length kCutterInterfaceThemesList)) with 3.
  change (if (theme >=? 3) || (theme <? 0) then 0 else theme) with (clamped theme).
  destruct (clamped_range theme) as [-> | [-> | ->]]; cbn -[loadNativeTheme_with loadDarkTheme loadLightTheme setValue];
    try reflexivity.
  rewrite loadNativeTheme_with_stored; [reflexivity|].
  unfold getInterfaceTheme. cbn. now rewrite value_setValue_same.
Qed.

Lemma setInterfaceTheme_persists n theme c c' :
  setInterfaceTheme (S n) theme c = Some c' ->
  s c' !! "ColorPalette" = Some (QVInt (clamped theme)) /\
  emitted c' = emitted c ++ [interfaceThemeChanged; colorsUpdated] /\
  core c' = core c /\
  forall key, key <> "ColorPalette" -> (forall k, key <> "colors." +:+ k) ->
    s c' !! key = s c !! key.
Proof.
  rewrite setInterfaceTheme_resolved. intros [= <-].
  destruct (frames_loader_of (clamped theme)
              (with_s (setValue "ColorPalette" (QVInt (clamped theme))) c))
    as (Hcore & Hem & _ & Hs).
  cbn [s emit emitted core]. repeat split.
  - rewrite Hs by apply ColorPalette_not_color. cbn. apply lookup_insert_eq.
  - rewrite Hem. cbn. now rewrite <- app_assoc.
  - rewrite Hcore. reflexivity.
  - intros key Hne Hcol. rewrite Hs by assumption. cbn.
    unfold setValue. now rewrite lookup_insert_ne.
Qed.

(** C1. For every index [i] outside [0, N), N = 3 being the size of the
    registry, [setInterfaceTheme(i)] does what [setInterfaceTheme(0)] does:
    the two calls have the same result on every call budget, and a call
    that has budget for itself returns, having persisted index 0, run the
    Native loader on the state with that index, and emitted
    interfaceThemeChanged and then colorsUpdated. *)
Theorem setInterfaceTheme_out_of_range fuel i c :
  i < 0 \/ Z.of_nat (length kCutterInterfaceThemesList) <= i ->
  Z.of_nat (length kCutterInterfaceThemesList) = 3 /\
  setInterfaceTheme fuel i c = setInterfaceTheme fuel 0 c /\
  exists c1,
    loadNativeTheme fuel (with_s (setValue "ColorPalette" (QVInt 0)) c) = Some c1 /\
    setInterfaceTheme (S fuel) i c
    = Some (emit colorsUpdated (emit interfaceThemeChanged c1)) /\
    s c1 !! "ColorPalette" = Some (QVInt 0) /\
    emitted (emit colorsUpdated (emit interfaceThemeChanged c1))
    = emitted c ++ [interfaceThemeChanged; colorsUpdated].
Proof.
  intros Hout. change (Z.of_nat (length kCutterInterfaceThemesList)) with 3 in *.
  split; [reflexivity|]. split.
  - destruct fuel as [|n]; [reflexivity|].
    rewrite !setInterfaceTheme_resolved.
    rewrite (clamped_out_of_range i) by assumption. reflexivity.
  - exists (loadNativeTheme_resolved (with_s (setValue "ColorPalette" (QVInt 0)) c)).
    assert (Hset : setInterfaceTheme (S fuel) i c
                   = Some (emit colorsUpdated (emit interfaceThemeChanged
                        (loadNativeTheme_resolved
                           (with_s (setValue "ColorPalette" (QVInt 0)) c))))).
    { rewrite setInterfaceTheme_resolved, (clamped_out_of_range i) by assumption.
      reflexivity. }
    destruct (setInterfaceTheme_persists _ _ _ _ Hset) as (Hs & Hem & _).
    rewrite (clamped_out_of_range i) in Hs by assumption.
    repeat split; try assumption.
    unfold loadNativeTheme. apply loadNativeTheme_with_stored.
    unfold getInterfaceTheme. cbn. now rewrite value_setValue_same.
Qed.

(** ** Colours *)

(** C5. [getColor(k)] has a result for every key [k] and every store: the
    colour stored under colors.<k> when the store has that key, and
    otherwise exactly what the reserved key gives, the value stored under
    colors.other read as a colour. *)
Theorem getColor_other_fallback k c :
  getColor k c
  = match s c !! ("colors." +:+ k) with
    | Some v => QVariant_toColor v
    | None => getColor "other" c
    end /\
  getColor "other" c = QVariant_toColor (default QVInvalid (s c !! "colors.other")).
Proof.
  assert (Hother : getColor "other" c
                   = QVariant_toColor (default QVInvalid (s c !! "colors.other"))).
  { unfold getColor, value. destruct (contains _ _); reflexivity. }
  split; [|exact Hother].
  rewrite Hother. unfold getColor, value.
  destruct (contains ("colors." +:+ k) (s c)) eqn:Hc.
  - apply contains_true in Hc. destruct Hc as [v ->]. reflexivity.
  - apply contains_false in Hc. rewrite Hc. reflexivity.
Qed.

(** ** Light or dark *)

Lemma windowColorIsDark_stored fuel c :
  0 <= getInterfaceTheme c < 3 ->
  windowColorIsDark fuel c
  = Some (match getInterfaceTheme c with
          | 1 => true
          | 2 => false
          | _ => window_sum_dark (palette c)
          end, c).
Proof.
  intros Hin. unfold windowColorIsDark, windowColorIsDark_with.
  destruct (getCurrentTheme_with_stored (setInterfaceTheme fuel) c Hin)
    as (theme & Hth & ->).
  cbn [mbind option_bind].
  assert (Hcases : getInterfaceTheme c = 0 \/ getInterfaceTheme c = 1 \/
                   getInterfaceTheme c = 2) by lia.
  destruct Hcases as [Hi | [Hi | Hi]]; rewrite Hi in *; cbn in Hth;
    injection Hth as <-; reflexivity.
Qed.

Lemma setInterfaceTheme_index fuel i c c' :
  setInterfaceTheme (S fuel) i c = Some c' -> getInterfaceTheme c' = clamped i.
Proof.
  intros Hset. destruct (setInterfaceTheme_persists _ _ _ _ Hset) as (Hs & _).
  unfold getInterfaceTheme, value. rewrite Hs. reflexivity.
Qed.

Lemma getCurrentTheme_returns fuel c :
  exists theme c',
    getCurrentTheme (S fuel) c = Some (theme, c') /\
    theme ∈ kCutterInterfaceThemesList /\
    kCutterInterfaceThemesList !! Z.to_nat (getInterfaceTheme c') = Some theme /\
    0 <= getInterfaceTheme c' < 3 /\
    getInterfaceTheme c' = clamped (getInterfaceTheme c).
Proof.
  destruct (decide (0 <= getInterfaceTheme c < 3)) as [Hin|Hout].
  - destruct (getCurrentTheme_with_stored (setInterfaceTheme (S fuel)) c Hin)
      as (theme & Hth & Hget).
    exists theme, c. repeat split; try assumption; try lia.
    + eapply list_elem_of_lookup_2. exact Hth.
    + symmetry. now apply clamped_in_range.
  - unfold getCurrentTheme, getCurrentTheme_with. cbv zeta.
    change (Z.of_nat (length kCutterInterfaceThemesList)) with 3.
    replace ((getInterfaceTheme c <? 0) || (getInterfaceTheme c >=? 3)) with true by lia.
    destruct (setInterfaceTheme (S fuel) 0 c) as [c'|] eqn:Hset.
    2:{ rewrite setInterfaceTheme_resolved in Hset. discriminate. }
    destruct (setInterfaceTheme_persists _ _ _ _ Hset) as (Hs & _).
    assert (Hidx : getInterfaceTheme c' = 0).
    { unfold getInterfaceTheme, value. rewrite Hs. reflexivity. }
    exists (mkTheme "Native" (Z.lor LightFlag DarkFlag)), c'.
    rewrite Hidx. repeat split; try reflexivity; try lia.
    + apply list_elem_of_here.
    + symmetry. apply clamped_out_of_range. lia.
Qed.

(** C6. [windowColorIsDark()] returns, and its result follows the current
    interface theme, the registry entry of the stored index (clamped into
    range): false when that theme supports the Light appearance only, true
    when it supports the Dark appearance only, and otherwise whether
    red + green + blue of the window colour of the live palette is below
    382. So after [setInterfaceTheme(i)] it returns true for Dark, false for
    Light and the sum test on the live window colour for Native, whatever
    palette is live; after [setInterfaceTheme(1)] in particular it returns
    true. *)
Theorem windowColorIsDark_by_appearance fuel c :
  (exists theme c',
     getCurrentTheme (S fuel) c = Some (theme, c') /\
     theme ∈ kCutterInterfaceThemesList /\
     kCutterInterfaceThemesList !! Z.to_nat (clamped (getInterfaceTheme c)) = Some theme /\
     getInterfaceTheme c' = clamped (getInterfaceTheme c) /\
     windowColorIsDark (S fuel) c
     = Some (if only_light theme then false
             else if only_dark theme then true
             else red (Window (palette c')) + green (Window (palette c'))
                  + blue (Window (palette c')) <? 382,
             c')) /\
  (forall i, exists ci,
     setInterfaceTheme (S fuel) i c = Some ci /\
     forall fuel' live,
       windowColorIsDark fuel' (setPalette live ci)
       = Some (match clamped i with
               | 1 => true
               | 2 => false
               | _ => red (Window live) + green (Window live) + blue (Window live) <? 382
               end, setPalette live ci)) /\
  (exists cd,
     setInterfaceTheme (S fuel) 1 c = Some cd /\
     forall fuel' live,
       windowColorIsDark fuel' (setPalette live cd) = Some (true, setPalette live cd)).
Proof.
  assert (Hsel : forall i, exists ci,
            setInterfaceTheme (S fuel) i c = Some ci /\
            forall fuel' live,
              windowColorIsDark fuel' (setPalette live ci)
              = Some (match clamped i with
                      | 1 => true
                      | 2 => false
                      | _ => red (Window live) + green (Window live)
                             + blue (Window live) <? 382
                      end, setPalette live ci)).
  { intros i.
    destruct (setInterfaceTheme (S fuel) i c) as [ci|] eqn:Hset.
    2:{ rewrite setInterfaceTheme_resolved in Hset. discriminate. }
    exists ci. split; [reflexivity|]. intros fuel' live.
    pose proof (setInterfaceTheme_index _ _ _ _ Hset) as Hidx.
    assert (Hidx' : getInterfaceTheme (setPalette live ci) = clamped i) by exact Hidx.
    rewrite windowColorIsDark_stored
      by (rewrite Hidx'; destruct (clamped_range i) as [-> | [-> | ->]]; lia).
    rewrite Hidx'. reflexivity. }
  split; [|split; [exact Hsel|]].
  - destruct (getCurrentTheme_returns fuel c)
      as (theme & c' & Hget & Hin & Hlook & _ & Hidx).
    exists theme, c'. split; [exact Hget|]. split; [exact Hin|].
    split; [now rewrite <- Hidx|]. split; [exact Hidx|].
    unfold windowColorIsDark, windowColorIsDark_with.
    unfold getCurrentTheme in Hget. rewrite Hget. cbn [mbind option_bind].
    unfold kCutterInterfaceThemesList in Hin.
    repeat (apply elem_of_cons in Hin as [-> | Hin]); [reflexivity..|].
    now apply elem_of_nil in Hin.
  - destruct (Hsel 1) as (cd & Hset & Hdark). exists cd. split; [exact Hset|].
    exact Hdark.
Qed.

(** ** The option mirror *)

Lemma asmOptions_keys_NoDup : NoDup asmOptions_entries.*1.
Proof. apply (bool_decide_unpack _). vm_compute. exact I. Qed.

Lemma asmOptions_lookup key d :
  asmOptions !! key = Some d <-> (key, d) ∈ asmOptions_entries.
Proof.
  unfold asmOptions. symmetry. apply elem_of_list_to_map, asmOptions_keys_NoDup.
Qed.

Lemma asmOptions_recognized key :
  is_Some (asmOptions !! key) <-> key ∈ asmOptions_entries.*1.
Proof.
  unfold asmOptions. split.
  - intros [d Hd]. destruct (decide (key ∈ asmOptions_entries.*1)) as [Hin|Hnotin];
      [exact Hin|].
    apply (not_elem_of_list_to_map_1 (M:=gmap string)) in Hnotin. congruence.
  - intros Hin. destruct (list_to_map asmOptions_entries !! key) as [d|] eqn:Hd;
      [eauto|].
    now apply not_elem_of_list_to_map_2 in Hd.
Qed.

Lemma asmOptions_types key d :
  asmOptions !! key = Some d ->
  QVariant_type d = TBool \/ QVariant_type d = TInt \/ QVariant_type d = TString.
Proof.
  intros Hd. apply asmOptions_lookup in Hd.
  assert (Hall : Forall (fun it => QVariant_type it.2 = TBool \/
                                   QVariant_type it.2 = TInt \/
                                   QVariant_type it.2 = TString) asmOptions_entries).
  { apply (bool_decide_unpack _). vm_compute. exact I. }
  rewrite Forall_forall in Hall. apply (Hall (key, d)), Hd.
Qed.

(** C9. [setConfig(k, v)] hands (k, v) to the engine whatever k is, writes
    v under k into the durable store exactly when k is a key of the
    catalogue, leaves the store as it was for any other k, and touches
    nothing else. *)
Theorem setConfig_forwards_persists_recognized key v c :
  core (setConfig key v c) = core_setConfig key v (core c) /\
  s (setConfig key v c)
  = (if decide (key ∈ asmOptions_entries.*1) then <[key := v]> (s c) else s c) /\
  (nativePalette (setConfig key v c), palette (setConfig key v c),
   styleSheet (setConfig key v c), allWidgets (setConfig key v c),
   warnings (setConfig key v c), emitted (setConfig key v c))
  = (nativePalette c, palette c, styleSheet c, allWidgets c, warnings c, emitted c).
Proof.
  unfold setConfig.
  destruct (contains key asmOptions) eqn:Hc.
  - apply contains_true, asmOptions_recognized in Hc.
    rewrite decide_True by assumption. repeat split.
  - apply contains_false in Hc.
    rewrite decide_False; [repeat split|].
    rewrite <- asmOptions_recognized, Hc. now intros [? ?].
Qed.

Lemma iteration_keys_NoDup (order : list (string * QVariant)) :
  iteration_of asmOptions order -> NoDup order.*1.
Proof.
  unfold iteration_of. intros Hp. rewrite Hp. apply NoDup_fst_map_to_list.
Qed.

Lemma iteration_recognized (order : list (string * QVariant)) :
  iteration_of asmOptions order ->
  Forall (fun it => asmOptions !! it.1 = Some it.2) order.
Proof.
  unfold iteration_of. intros Hp. apply Forall_forall. intros [key d] Hin.
  rewrite Hp in Hin. now apply elem_of_map_to_list in Hin.
Qed.

Lemma iteration_list_to_map (order : list (string * QVariant)) :
  iteration_of asmOptions order -> list_to_map order = asmOptions.
Proof.
  intros Hp. rewrite <- (list_to_map_to_list asmOptions).
  apply list_to_map_proper; [now apply iteration_keys_NoDup | exact Hp].
Qed.

Lemma foldl_insert_union (order : list (string * QVariant)) (m : gmap string QVariant) :
  NoDup order.*1 ->
  foldl (fun m it => <[it.1 := it.2]> m) m order = list_to_map order ∪ m.
Proof.
  revert m. induction order as [|[key d] order IH]; intros m Hnd.
  - cbn. now rewrite (left_id_L ∅ (∪)).
  - apply NoDup_cons in Hnd as [Hnotin Hnd]. cbn [foldl list_to_map foldr].
    rewrite IH by assumption. cbn.
    rewrite <- insert_union_l. symmetry. apply insert_union_r.
    now apply not_elem_of_list_to_map.
Qed.

Lemma resetToDefaultAsmOptions_fold (order : list (string * QVariant)) c :
  Forall (fun it => asmOptions !! it.1 = Some it.2) order ->
  resetToDefaultAsmOptions order c
  = with_core (default_writes order)
      (with_s (fun m => foldl (fun m it => <[it.1 := it.2]> m) m order) c).
Proof.
  revert c. induction order as [|[key d] order IH]; intros c Hall.
  - destruct c; reflexivity.
  - apply Forall_cons in Hall as [Hkey Hall].
    unfold resetToDefaultAsmOptions in *. cbn [foldl].
    rewrite IH by assumption. unfold setConfig. cbn [fst snd] in *.
    assert (Hc : contains key asmOptions = true).
    { apply contains_true. rewrite Hkey. eauto. }
    rewrite Hc. reflexivity.
Qed.

(** C7. [resetToDefaultAsmOptions()] writes the compiled-in default of
    every catalogue entry into the engine and, through [setConfig], into the
    durable store: afterwards the store is the catalogue laid over the
    former store, so every catalogue key is present with its default, and
    the engine has received one write per entry, in iteration order. *)
Theorem resetToDefaultAsmOptions_commits_defaults (order : list (string * QVariant)) c :
  iteration_of asmOptions order ->
  s (resetToDefaultAsmOptions order c) = asmOptions ∪ s c /\
  core (resetToDefaultAsmOptions order c) = default_writes order (core c) /\
  forall key d, (key, d) ∈ asmOptions_entries ->
    (key, d) ∈ order /\ s (resetToDefaultAsmOptions order c) !! key = Some d.
Proof.
  intros Hit.
  rewrite resetToDefaultAsmOptions_fold by now apply iteration_recognized.
  cbn [s core with_s with_core].
  rewrite foldl_insert_union by now apply iteration_keys_NoDup.
  rewrite iteration_list_to_map by assumption.
  repeat split.
  - unfold iteration_of in Hit. rewrite Hit. apply elem_of_map_to_list.
    now apply asmOptions_lookup.
  - apply lookup_union_Some_l. now apply asmOptions_lookup.
Qed.

Lemma applySavedAsmOptions_fold (order : list (string * QVariant)) c :
  applySavedAsmOptions order c = with_core (saved_writes (s c) order) c.
Proof.
  revert c. induction order as [|[key d] order IH]; intros c.
  - destruct c; reflexivity.
  - unfold applySavedAsmOptions in *. cbn [foldl]. rewrite IH. reflexivity.
Qed.

Lemma default_writes_swap (ws : list (string * QVariant)) key v (e : E) :
  core_keyed (E:=E) ->
  is_Some (asmOptions !! key) ->
  Forall (fun w => is_Some (asmOptions !! w.1)) ws ->
  key ∉ ws.*1 ->
  default_writes ws (core_setConfig key v e) = core_setConfig key v (default_writes ws e).
Proof.
  intros [_ Hswap] Hkey. revert e.
  induction ws as [|[k' v'] ws IH]; intros e Hall Hnotin; [reflexivity|].
  apply Forall_cons in Hall as [Hk' Hall].
  cbn in Hnotin. apply not_elem_of_cons in Hnotin as [Hne Hnotin].
  unfold default_writes in *. cbn [foldl fst snd] in *.
  rewrite (Hswap k' v' key v) by auto. now apply IH.
Qed.

Lemma default_writes_twice (ws : list (string * QVariant)) (e : E) :
  core_keyed (E:=E) ->
  Forall (fun w => is_Some (asmOptions !! w.1)) ws ->
  NoDup ws.*1 ->
  default_writes ws (default_writes ws e) = default_writes ws e.
Proof.
  intros Hlaws. revert e.
  induction ws as [|[key v] ws IH]; intros e Hall Hnd; [reflexivity|].
  apply Forall_cons in Hall as [Hkey Hall]. apply NoDup_cons in Hnd as [Hnotin Hnd].
  assert (Hcons : forall x, default_writes ((key, v) :: ws) x
                            = default_writes ws (core_setConfig key v x))
    by reflexivity.
  rewrite !Hcons.
  rewrite <- (default_writes_swap ws key v (core_setConfig key v e)) by assumption.
  destruct Hlaws as [Hidem Hswap]. rewrite Hidem by assumption.
  apply IH; assumption.
Qed.

Lemma saved_writes_default (st : gmap string QVariant)
    (order : list (string * QVariant)) (e : E) :
  saved_writes st order e
  = default_writes (map (fun it => (it.1, value it.1 it.2 st)) order) e.
Proof.
  revert e. induction order as [|[key d] order IH]; intros e; [reflexivity|].
  unfold saved_writes, default_writes in *. cbn [foldl map fst snd]. apply IH.
Qed.

(** C8. [applySavedAsmOptions()] never modifies the durable store and
    writes, for each catalogue key, the persisted value when there is one
    and the compiled-in default otherwise. Over an engine that keeps the
    catalogue keys as independent cells, a second call right after the
    first leaves the engine, and the whole state, exactly as the first call
    left it. *)
Theorem applySavedAsmOptions_idempotent (order : list (string * QVariant)) c :
  iteration_of asmOptions order ->
  core_keyed (E:=E) ->
  s (applySavedAsmOptions order c) = s c /\
  core (applySavedAsmOptions order c) = saved_writes (s c) order (core c) /\
  core (applySavedAsmOptions order (applySavedAsmOptions order c))
  = core (applySavedAsmOptions order c) /\
  applySavedAsmOptions order (applySavedAsmOptions order c)
  = applySavedAsmOptions order c.
Proof.
  intros Hit Hlaws.
  assert (Htwice : saved_writes (s c) order (saved_writes (s c) order (core c))
                   = saved_writes (s c) order (core c)).
  { rewrite !saved_writes_default. apply default_writes_twice; [assumption| |].
    - apply Forall_map, Forall_forall. intros [key d] Hin. cbn.
      pose proof (iteration_recognized order Hit) as Hall.
      rewrite Forall_forall in Hall. specialize (Hall _ Hin). cbn in Hall.
      rewrite Hall. eauto.
    - rewrite <- list_fmap_compose.
      now apply iteration_keys_NoDup. }
  rewrite !applySavedAsmOptions_fold. cbn [s core with_core].
  repeat split; [exact Htwice|].
  unfold with_core. cbn. now rewrite Htwice.
Qed.

(** C4. For a key of the catalogue and a value of the type of its default,
    [setConfig(k, v)] followed by [getConfigVar(k)] returns the value read
    back from the engine through the reader the default's type selects
    (bool, int or string); that is the type of v, and over an engine that
    hands back what was stored under k the result is v itself. *)
Theorem setConfig_getConfigVar_roundtrip key d v c :
  asmOptions !! key = Some d ->
  QVariant_type v = QVariant_type d ->
  core_reads_back key v (core c) ->
  getConfigVar key (setConfig key v c)
  = match QVariant_type d with
    | TBool => QVBool (core_getConfigb key (core_setConfig key v (core c)))
    | TInt => QVInt (core_getConfigi key (core_setConfig key v (core c)))
    | _ => QVString (core_getConfig key (core_setConfig key v (core c)))
    end /\
  QVariant_type (getConfigVar key (setConfig key v c)) = QVariant_type v /\
  getConfigVar key (setConfig key v c) = v.
Proof.
  intros Hd Hty Hback.
  assert (Hcore : core (setConfig key v c) = core_setConfig key v (core c)).
  { unfold setConfig. destruct (contains key asmOptions); reflexivity. }
  unfold getConfigVar. rewrite Hd, Hcore.
  destruct (asmOptions_types key d Hd) as [Hd' | [Hd' | Hd']];
    rewrite Hd' in *; destruct v; try discriminate Hty;
    cbn in Hback; rewrite Hback; repeat split.
Qed.

(** ** First execution *)

Lemma isFirstExecution_calls_after n c :
  is_Some (s c !! "firstExecution") ->
  isFirstExecution_calls n c = (replicate n false, c).
Proof.
  intros Hsome. induction n as [|n IH]; [reflexivity|].
  cbn [isFirstExecution_calls]. unfold isFirstExecution.
  apply contains_true in Hsome. rewrite Hsome, IH. reflexivity.
Qed.

(** C10. [isFirstExecution()] returns true exactly when the durable store
    has no key firstExecution, and then writes the key before returning;
    the store has the key after every call, so in any run of calls only the
    first can return true and all later ones return false. *)
Theorem isFirstExecution_true_once n c :
  (isFirstExecution c).1 = bool_decide (s c !! "firstExecution" = None) /\
  (isFirstExecution c).2
  = (if (isFirstExecution c).1
     then with_s (setValue "firstExecution" (QVBool false)) c else c) /\
  is_Some (s (isFirstExecution c).2 !! "firstExecution") /\
  (isFirstExecution_calls (S n) c).1 = (isFirstExecution c).1 :: replicate n false.
Proof.
  cbn [isFirstExecution_calls]. unfold isFirstExecution.
  destruct (contains "firstExecution" (s c)) eqn:Hc; cbn [fst snd].
  - apply contains_true in Hc.
    rewrite (isFirstExecution_calls_after n c Hc). cbn [fst].
    repeat split; [|exact Hc].
    symmetry. apply bool_decide_eq_false. now apply not_eq_None_Some.
  - apply contains_false in Hc.
    assert (Hnow : is_Some (s (with_s (setValue "firstExecution" (QVBool false)) c)
                              !! "firstExecution")).
    { cbn. unfold setValue. rewrite lookup_insert_eq. eauto. }
    rewrite (isFirstExecution_calls_after n _ Hnow). cbn [fst].
    repeat split; [|exact Hnow].
    symmetry. now apply bool_decide_eq_true.
Qed.

(** ** Last-used colour themes *)

Lemma getColorTheme_same_store c c' :
  s c' !! "theme" = s c !! "theme" -> getColorTheme c' = getColorTheme c.
Proof. intros Hs. unfold getColorTheme, value. now rewrite Hs. Qed.

(** C3, as the code has it. Each interface theme T has one last-used colour
    theme name: what is stored under lastThemeOf.<T>, or the current colour
    theme when nothing is stored. [setLastThemeOf(T, n)] makes that name n
    for T and for no interface theme of another name. [setInterfaceTheme]
    returns without changing any of these names, the current colour theme
    or the engine: applying T's last-used colour theme after a switch is
    left to the caller. *)
Theorem lastThemeOf_kept_by_setInterfaceTheme (T T' : CutterInterfaceTheme)
    (theme : string) fuel i c :
  getLastThemeOf T c
  = QVariant_toString
      (default (QVString (getColorTheme c)) (s c !! ("lastThemeOf." +:+ name T))) /\
  getLastThemeOf T' (setLastThemeOf T theme c)
  = (if decide (name T' = name T) then theme else getLastThemeOf T' c) /\
  exists c',
    setInterfaceTheme (S fuel) i c = Some c' /\
    getLastThemeOf T c' = getLastThemeOf T c /\
    getColorTheme c' = getColorTheme c /\
    core c' = core c.
Proof.
  split; [reflexivity|]. split.
  - unfold getLastThemeOf, setLastThemeOf.
    assert (Hth : getColorTheme
                    (with_s (setValue ("lastThemeOf." +:+ name T) (QVString theme)) c)
                  = getColorTheme c).
    { apply getColorTheme_same_store. cbn. unfold setValue.
      now rewrite lookup_insert_ne. }
    rewrite Hth. cbn [s with_s].
    destruct (decide (name T' = name T)) as [->|Hne].
    + now rewrite value_setValue_same.
    + rewrite value_setValue_other; [reflexivity|].
      intros Heq. apply (inj (String.append _)) in Heq. congruence.
  - destruct (setInterfaceTheme (S fuel) i c) as [c'|] eqn:Hset.
    2:{ rewrite setInterfaceTheme_resolved in Hset. discriminate. }
    destruct (setInterfaceTheme_persists _ _ _ _ Hset) as (_ & _ & Hcore & Hs).
    assert (Hth : getColorTheme c' = getColorTheme c).
    { apply getColorTheme_same_store, Hs; [discriminate|]. apply theme_not_color. }
    exists c'. repeat split; try assumption.
    unfold getLastThemeOf, value. rewrite Hth, Hs; [reflexivity|discriminate|].
    apply lastThemeOf_not_color.
Qed.

(** ** Colours after a theme load *)

Lemma getColor_same_store k c c' : s c' = s c -> getColor k c' = getColor k c.
Proof. intros Hs. unfold getColor. now rewrite Hs. Qed.

Lemma getColor_setColor_same k col c : getColor k (setColor k col c) = col.
Proof.
  unfold getColor, setColor. cbn [s with_s].
  assert (Hc : contains ("colors." +:+ k) (setValue ("colors." +:+ k) (QVColor col) (s c))
               = true).
  { apply contains_true. unfold setValue. rewrite lookup_insert_eq. eauto. }
  rewrite Hc, value_setValue_same. reflexivity.
Qed.

Lemma getColor_setColor_other k k' col c :
  k <> k' -> k <> "other" -> getColor k' (setColor k col c) = getColor k' c.
Proof.
  intros Hne Hother. unfold getColor, setColor, contains, value, setValue. cbn [s with_s].
  change "colors.other" with ("colors." +:+ "other").
  rewrite !lookup_insert_ne; [reflexivity| |];
    intros Heq; apply (inj (String.append _)) in Heq; congruence.
Qed.

Ltac color_after_load :=
  cbn [run foldl];
  repeat first
    [ rewrite getColor_setColor_same; reflexivity
    | rewrite getColor_setColor_other by discriminate ].

Lemma getColor_navbar_empty_loader i c :
  getColor "gui.navbar.empty" (loader_of (clamped i) c)
  = if clamped i =? 2 then QColor_rgb 220 236 245 else QColor_rgb 100 100 100.
Proof.
  destruct (clamped_range i) as [-> | [-> | ->]]; cbn [loader_of Z.eqb Pos.eqb].
  - unfold loadNativeTheme_resolved. cbv zeta.
    destruct (window_sum_dark (nativePalette c)).
    + unfold loadNativeTheme_dark, loadBaseThemeNative. color_after_load.
    + unfold loadNativeTheme_light, loadBaseThemeNative. color_after_load.
  - unfold loadDarkTheme, loadBaseThemeDark. color_after_load.
  - unfold loadLightTheme. color_after_load.
Qed.

(** ** Selecting the colour theme *)

Lemma frames_setColorTheme_entries (colorTheme : list (string * QJsonValue)) :
  frames (E:=E) (fun c => foldl setColorTheme_entry c colorTheme).
Proof.
  induction colorTheme as [|it colorTheme IH].
  - intros c. repeat split.
  - cbn [foldl].
    apply (frames_compose (fun c => setColorTheme_entry c it)
                          (fun c => foldl setColorTheme_entry c colorTheme));
      [|exact IH].
    intros c. unfold setColorTheme_entry.
    destruct (negb _); [repeat split | apply frames_setColor].
Qed.

Lemma setColorTheme_colors_keeps t c :
  emitted (setColorTheme_colors t c) = emitted c /\
  forall key, key <> "theme" -> (forall n, key <> "colors." +:+ n) ->
    s (setColorTheme_colors t c) !! key = s c !! key.
Proof.
  unfold setColorTheme_colors. cbv zeta.
  destruct (String.eqb t "default");
    match goal with
    | |- context [foldl setColorTheme_entry ?c0 ?l] =>
        destruct (frames_setColorTheme_entries l c0) as (_ & Hem & _ & Hs)
    end;
    (split; [rewrite Hem; reflexivity|]);
    intros key Hne Hcol; rewrite Hs by assumption; cbn;
    unfold setValue; now rewrite lookup_insert_ne.
Qed.

Lemma setColorTheme_custom fuel t c :
  themeWorker_isCustomTheme t (core (setColorTheme_colors t c)) = true ->
  setColorTheme fuel t c = Some (emit colorsUpdated (setColorTheme_colors t c)).
Proof. intros Hcustom. unfold setColorTheme. cbv zeta. now rewrite Hcustom. Qed.

Lemma setColorTheme_entries_gui (colorTheme : list (string * QJsonValue)) c :
  palette (foldl setColorTheme_entry c colorTheme) = palette c /\
  styleSheet (foldl setColorTheme_entry c colorTheme) = styleSheet c /\
  warnings (foldl setColorTheme_entry c colorTheme) = warnings c.
Proof.
  revert c. induction colorTheme as [|it colorTheme IH]; intros c; [repeat split|].
  cbn [foldl]. destruct (IH (setColorTheme_entry c it)) as (Hp & Hs & Hw).
  rewrite Hp, Hs, Hw. unfold setColorTheme_entry.
  destruct (negb _); repeat split.
Qed.

Lemma setColorTheme_colors_gui t c :
  palette (setColorTheme_colors t c) = palette c /\
  styleSheet (setColorTheme_colors t c) = styleSheet c /\
  warnings (setColorTheme_colors t c) = warnings c.
Proof.
  unfold setColorTheme_colors. cbv zeta.
  destruct (String.eqb t "default");
    match goal with
    | |- context [foldl setColorTheme_entry ?c0 ?l] =>
        destruct (setColorTheme_entries_gui l c0) as (Hp & Hs & Hw)
    end;
    rewrite Hp, Hs, Hw; repeat split.
Qed.

(** C2, as the code has it. For every theme name t that is not a custom
    theme, [setColorTheme(t)] applies the colours the engine reports and
    then runs [setInterfaceTheme] with the current index again, so the
    colour cache it leaves is the override table of the current interface
    theme laid over the engine's colours: gui.navbar.empty, for one, has
    the colour the interface theme gives it, and the signals are
    interfaceThemeChanged, colorsUpdated, colorsUpdated. For a custom theme
    [setInterfaceTheme] is not run again: on any call budget the result is
    the state with the engine's colours applied, the stored index, the
    palette, the style sheet and the warning log are as they were, and the
    only signal is colorsUpdated. *)
Theorem setColorTheme_reloads_overrides_unless_custom fuel t c :
  if themeWorker_isCustomTheme t (core (setColorTheme_colors t c)) then
    (forall fuel',
       setColorTheme fuel' t c = Some (emit colorsUpdated (setColorTheme_colors t c))) /\
    s (setColorTheme_colors t c) !! "ColorPalette" = s c !! "ColorPalette" /\
    palette (setColorTheme_colors t c) = palette c /\
    styleSheet (setColorTheme_colors t c) = styleSheet c /\
    warnings (setColorTheme_colors t c) = warnings c /\
    emitted (emit colorsUpdated (setColorTheme_colors t c))
    = emitted c ++ [colorsUpdated]
  else
    exists c2,
      setInterfaceTheme (S fuel) (getInterfaceTheme (setColorTheme_colors t c))
        (setColorTheme_colors t c) = Some c2 /\
      setColorTheme (S fuel) t c = Some (emit colorsUpdated c2) /\
      (forall k,
         getColor k (emit colorsUpdated c2)
         = getColor k
             (loader_of (clamped (getInterfaceTheme c))
                (with_s (setValue "ColorPalette" (QVInt (clamped (getInterfaceTheme c))))
                   (setColorTheme_colors t c)))) /\
      getColor "gui.navbar.empty" (emit colorsUpdated c2)
      = (if clamped (getInterfaceTheme c) =? 2
         then QColor_rgb 220 236 245 else QColor_rgb 100 100 100) /\
      emitted (emit colorsUpdated c2)
      = emitted c ++ [interfaceThemeChanged; colorsUpdated; colorsUpdated].
Proof.
  destruct (setColorTheme_colors_keeps t c) as (Hem & Hs).
  destruct (themeWorker_isCustomTheme t (core (setColorTheme_colors t c))) eqn:Hstd.
  - destruct (setColorTheme_colors_gui t c) as (Hp & Hsh & Hw).
    repeat split; try assumption.
    + intros fuel'. now apply setColorTheme_custom.
    + apply Hs; [discriminate|apply ColorPalette_not_color].
    + cbn [emit emitted]. now rewrite Hem.
  - assert (Hidx : getInterfaceTheme (setColorTheme_colors t c) = getInterfaceTheme c).
    { unfold getInterfaceTheme, value.
      rewrite Hs; [reflexivity|discriminate|]. apply ColorPalette_not_color. }
    destruct (setInterfaceTheme (S fuel) (getInterfaceTheme (setColorTheme_colors t c))
                (setColorTheme_colors t c)) as [c2|] eqn:Hset.
    2:{ rewrite setInterfaceTheme_resolved in Hset. discriminate. }
    exists c2. split; [reflexivity|]. split.
    { unfold setColorTheme. cbv zeta. rewrite Hstd. cbn [negb]. rewrite Hset.
      reflexivity. }
    destruct (setInterfaceTheme_persists _ _ _ _ Hset) as (_ & Hem2 & _).
    rewrite setInterfaceTheme_resolved, Hidx in Hset. injection Hset as <-.
    split; [intros k; reflexivity|]. split.
    + exact (getColor_navbar_empty_loader (getInterfaceTheme c) _).
    + cbn [emit emitted] in *. rewrite Hem2, Hem, <- app_assoc. reflexivity.
Qed.
End Properties.

(** * The statements on concrete inputs *)

Section Reference.
#[local] Existing Instances refCore refQt refH.

Lemma refCore_keyed : core_keyed (E:=RefEngine).
Proof.
  split.
  - intros key v [m l ts] _. cbn. f_equal. apply insert_insert_eq.
  - intros k1 v1 k2 v2 [m l ts] _ _ Hne. cbn. f_equal. now apply insert_insert_ne.
Qed.

Lemma setInterfaceTheme_out_of_range_witness :
  (7 < 0 \/ Z.of_nat (length kCutterInterfaceThemesList) <= 7) /\
  setInterfaceTheme 1 7 (ref_fresh ref_engine)
  = setInterfaceTheme 1 0 (ref_fresh ref_engine).
Proof.
  assert (Hout : 7 < 0 \/ Z.of_nat (length kCutterInterfaceThemesList) <= 7)
    by (right; cbn; lia).
  split; [exact Hout|].
  exact (proj1 (proj2
    (setInterfaceTheme_out_of_range 1 7 (ref_fresh ref_engine) Hout))).
Defined.

(** C2 as stated fails: MyCustom is a custom theme; with Dark in force,
    [setColorTheme("MyCustom")] leaves the navigation bar with the colours
    the theme reports, not with the overrides of Dark, and emits
    colorsUpdated only: [setInterfaceTheme] was not run again. *)
Lemma setColorTheme_custom_replaces_overrides :
  themeWorker_isCustomTheme "MyCustom" ref_engine = true /\
  getColor "gui.navbar.seek" ref_dark = QColor_rgb 233 86 86 /\
  emitted ref_dark = [interfaceThemeChanged; colorsUpdated] /\
  (c' ← setColorTheme 1 "MyCustom" ref_dark;
   Some (getColor "gui.navbar.seek" c', getColor "gui.navbar.empty" c', emitted c'))
  = Some (QColor_rgba 1 2 3 255, QColor_rgba 9 8 7 255,
          [interfaceThemeChanged; colorsUpdated; colorsUpdated]) /\
  QColor_rgba 1 2 3 255 <> QColor_rgb 233 86 86.
Proof. repeat split. discriminate. Qed.

(** The standard theme ayu reports (9, 8, 7) for gui.navbar.empty; with
    Dark in force the cache holds that colour once the engine's colours are
    applied, and the colour of Dark again when [setColorTheme] returns. *)
Lemma setColorTheme_reloads_overrides_unless_custom_witness :
  themeWorker_isCustomTheme "ayu"
    (core (setColorTheme_colors "ayu" ref_dark_themes)) = false /\
  getColor "gui.navbar.empty" (setColorTheme_colors "ayu" ref_dark_themes)
  = QColor_rgba 9 8 7 255 /\
  (c' ← setColorTheme 1 "ayu" ref_dark_themes;
   Some (getColor "gui.navbar.empty" c', emitted c'))
  = Some (QColor_rgb 100 100 100,
          emitted ref_dark_themes ++ [interfaceThemeChanged; colorsUpdated; colorsUpdated]).
Proof.
  assert (Hstd : themeWorker_isCustomTheme "ayu"
                   (core (setColorTheme_colors "ayu" ref_dark_themes)) = false)
    by reflexivity.
  split; [exact Hstd|]. split; [reflexivity|].
  pose proof (setColorTheme_reloads_overrides_unless_custom 0 "ayu" ref_dark_themes)
    as Hthm.
  rewrite Hstd in Hthm. destruct Hthm as (c2 & _ & Hset & _ & Hcol & Hem).
  rewrite Hset. cbn [mbind option_bind]. rewrite Hcol, Hem. reflexivity.
Defined.

(** C3 as stated fails: Dark was last used with solarized and the current
    colour theme is default; after [setInterfaceTheme(1)] the current
    colour theme is still default, and the engine received no directive. *)
Lemma setInterfaceTheme_does_not_restore_last_theme :
  getLastThemeOf (mkTheme "Dark" DarkFlag) ref_last_used = "solarized" /\
  (c' ← setInterfaceTheme 1 1 ref_last_used;
   Some (getInterfaceTheme c', getColorTheme c',
         getLastThemeOf (mkTheme "Dark" DarkFlag) c', ref_commands (core c')))
  = Some (1, "default", "solarized", []) /\
  "default" <> "solarized".
Proof. repeat split. discriminate. Qed.

Lemma setConfig_getConfigVar_roundtrip_witness :
  asmOptions !! "asm.tabs" = Some (QVInt 5) /\
  QVariant_type (QVInt 8) = QVariant_type (QVInt 5) /\
  core_reads_back "asm.tabs" (QVInt 8) (core (ref_fresh ref_engine)) /\
  getConfigVar "asm.tabs" (setConfig "asm.tabs" (QVInt 8) (ref_fresh ref_engine))
  = QVInt 8.
Proof.
  assert (Hd : asmOptions !! "asm.tabs" = Some (QVInt 5)) by reflexivity.
  assert (Hback : core_reads_back "asm.tabs" (QVInt 8) (core (ref_fresh ref_engine)))
    by reflexivity.
  split; [exact Hd|]. split; [reflexivity|]. split; [exact Hback|].
  exact (proj2 (proj2
    (setConfig_getConfigVar_roundtrip "asm.tabs" (QVInt 5) (QVInt 8)
       (ref_fresh ref_engine) Hd eq_refl Hback))).
Defined.

Lemma resetToDefaultAsmOptions_commits_defaults_witness :
  iteration_of asmOptions (map_to_list asmOptions) /\
  s (resetToDefaultAsmOptions (map_to_list asmOptions) (ref_fresh ref_engine))
  = asmOptions ∪ ∅.
Proof.
  assert (Hit : iteration_of asmOptions (map_to_list asmOptions))
    by (unfold iteration_of; reflexivity).
  split; [exact Hit|].
  exact (proj1 (resetToDefaultAsmOptions_commits_defaults
                  (map_to_list asmOptions) (ref_fresh ref_engine) Hit)).
Defined.

Lemma applySavedAsmOptions_idempotent_witness :
  iteration_of asmOptions (map_to_list asmOptions) /\
  core_keyed (E:=RefEngine) /\
  applySavedAsmOptions (map_to_list asmOptions)
    (applySavedAsmOptions (map_to_list asmOptions) (ref_fresh ref_engine))
  = applySavedAsmOptions (map_to_list asmOptions) (ref_fresh ref_engine).
Proof.
  assert (Hit : iteration_of asmOptions (map_to_list asmOptions))
    by (unfold iteration_of; reflexivity).
  split; [exact Hit|]. split; [exact refCore_keyed|].
  exact (proj2 (proj2 (proj2
    (applySavedAsmOptions_idempotent (map_to_list asmOptions) (ref_fresh ref_engine)
       Hit refCore_keyed)))).
Defined.
End Reference.

(** * Further properties *)

Section MoreProperties.
Context {E : Type} `{CutterCore E} `{QtLib} `{ConfigurationH} `{QtPaths}.
Implicit Types (c : @Configuration E) (key : string) (v : QVariant).

(** ** The colour cache *)

(** X1. Reading a colour after [setColor(k, col)]: key k itself reads col;
    when k is the reserved key other, every key the cache does not hold
    reads col as well; any other key reads what it read before. *)
Theorem getColor_after_setColor k k' col c :
  getColor k' (setColor k col c)
  = if decide (k' = k) then col
    else if decide (k = "other") then
      match s c !! ("colors." +:+ k') with
      | Some v => QVariant_toColor v
      | None => col
      end
    else getColor k' c.
Proof.
  destruct (decide (k' = k)) as [->|Hne]; [apply getColor_setColor_same|].
  destruct (decide (k = "other")) as [->|Hother].
  - unfold getColor, setColor, contains, value, setValue. cbn [s with_s].
    change "colors.other" with ("colors." +:+ "other").
    rewrite lookup_insert_eq, lookup_insert_ne.
    2:{ intros Heq. apply (inj (String.append _)) in Heq. congruence. }
    destruct (s c !! ("colors." +:+ k')) as [v|] eqn:Hk.
    + rewrite bool_decide_eq_true_2 by eauto. reflexivity.
    + rewrite bool_decide_eq_false_2 by (now intros [? ?]). reflexivity.
  - apply getColor_setColor_other; congruence.
Qed.

(** ** Typed option reads *)

(** X2. The typed read accessors: for a key of the catalogue whose default
    is a bool, an int or a string, [getConfigBool], [getConfigInt] or
    [getConfigString] returns what the engine's reader of that type returns;
    for a key outside the catalogue all four accessors return the neutral
    value (invalid, false, 0, empty) without looking at the engine. *)
Theorem typed_reads_follow_catalogue key c :
  match asmOptions !! key with
  | Some d =>
      match QVariant_type d with
      | TBool => getConfigBool key c = core_getConfigb key (core c)
      | TInt => getConfigInt key c = core_getConfigi key (core c)
      | _ => getConfigString key c = core_getConfig key (core c)
      end
  | None =>
      getConfigVar key c = QVInvalid /\
      getConfigBool key c = false /\
      getConfigInt key c = 0 /\
      getConfigString key c = ""
  end.
Proof.
  unfold getConfigBool, getConfigInt, getConfigString, getConfigVar.
  destruct (asmOptions !! key) as [d|]; [|repeat split].
  destruct (QVariant_type d); reflexivity.
Qed.

(** X3. There is no round trip for a key outside the catalogue:
    [setConfig(k, v)] hands v to the engine, leaves the durable store as it
    was, and [getConfigVar(k)] right after it still returns the invalid
    variant. *)
Theorem setConfig_unrecognized_not_read_back key v c :
  asmOptions !! key = None ->
  core (setConfig key v c) = core_setConfig key v (core c) /\
  s (setConfig key v c) = s c /\
  getConfigVar key (setConfig key v c) = QVInvalid /\
  getConfigBool key (setConfig key v c) = false /\
  getConfigInt key (setConfig key v c) = 0 /\
  getConfigString key (setConfig key v c) = "".
Proof.
  intros Hnone.
  unfold getConfigBool, getConfigInt, getConfigString, getConfigVar, setConfig.
  rewrite Hnone. apply contains_false in Hnone. rewrite Hnone. repeat split.
Qed.

(** ** The current interface theme *)

(** X4. [getCurrentTheme()] returns the registry entry of an index in
    range. With an index in range stored it changes nothing; otherwise it
    is [setInterfaceTheme(0)] that ran, and Native is returned. A further
    call returns the same entry, changes nothing and re-enters nothing. *)
Theorem getCurrentTheme_repairs_index fuel c :
  exists theme c',
    getCurrentTheme (S fuel) c = Some (theme, c') /\
    0 <= getInterfaceTheme c' < 3 /\
    kCutterInterfaceThemesList !! Z.to_nat (getInterfaceTheme c') = Some theme /\
    (if decide (0 <= getInterfaceTheme c < 3) then c' = c
     else setInterfaceTheme (S fuel) 0 c = Some c' /\
          theme = mkTheme "Native" (Z.lor LightFlag DarkFlag)) /\
    forall fuel', getCurrentTheme fuel' c' = Some (theme, c').
Proof.
  destruct (decide (0 <= getInterfaceTheme c < 3)) as [Hin|Hout].
  - destruct (getCurrentTheme_with_stored (setInterfaceTheme (S fuel)) c Hin)
      as (theme & Hth & Hget).
    exists theme, c. repeat split; try assumption; try lia.
    intros fuel'.
    destruct (getCurrentTheme_with_stored (setInterfaceTheme fuel') c Hin)
      as (theme' & Hth' & Hget').
    unfold getCurrentTheme. rewrite Hget'. congruence.
  - unfold getCurrentTheme at 1. unfold getCurrentTheme_with. cbv zeta.
    change (Z.of_nat (length kCutterInterfaceThemesList)) with 3.
    replace ((getInterfaceTheme c <? 0) || (getInterfaceTheme c >=? 3)) with true by lia.
    destruct (setInterfaceTheme (S fuel) 0 c) as [c'|] eqn:Hset.
    2:{ rewrite setInterfaceTheme_resolved in Hset. discriminate. }
    destruct (setInterfaceTheme_persists _ _ _ _ Hset) as (Hs & _).
    assert (Hidx : getInterfaceTheme c' = 0).
    { unfold getInterfaceTheme, value. rewrite Hs. reflexivity. }
    exists (mkTheme "Native" (Z.lor LightFlag DarkFlag)), c'.
    rewrite Hidx. repeat split; try reflexivity; try lia.
    intros fuel'.
    destruct (getCurrentTheme_with_stored (setInterfaceTheme fuel') c')
      as (theme' & Hth' & Hget'); [lia|].
    unfold getCurrentTheme. rewrite Hget'. rewrite Hidx in Hth'.
    cbn in Hth'. injection Hth' as <-. reflexivity.
Qed.

(** ** Theme loads as overlays of the durable store *)

Lemma overlays_setColor n col :
  overlays (E:=E) (setColor n col) {[ "colors." +:+ n := QVColor col ]}.
Proof. intros c. cbn. unfold setValue. apply insert_union_singleton_l. Qed.

Lemma overlays_same_store (f : @Configuration E -> @Configuration E) :
  (forall c, s (f c) = s c) -> overlays f ∅.
Proof. intros Hf c. rewrite Hf. symmetry. apply (left_id_L ∅ (∪)). Qed.

Lemma overlays_compose (f g : @Configuration E -> @Configuration E) mf mg :
  overlays f mf -> overlays g mg -> overlays (fun c => g (f c)) (mg ∪ mf).
Proof. intros Hf Hg c. rewrite Hg, Hf. apply (assoc_L (∪)). Qed.

Lemma overlays_run (stmts : list (@Configuration E -> @Configuration E)) :
  Forall (fun f => exists m, overlays f m) stmts -> exists m, overlays (run stmts) m.
Proof.
  induction 1 as [|f stmts [mf Hf] _ [m IH]].
  - exists ∅. now apply overlays_same_store.
  - exists (m ∪ mf). change (run (f :: stmts)) with (fun c => run stmts (f c)).
    now apply overlays_compose.
Qed.

Lemma overlays_resource_or_warn path msg
    (k : string -> @Configuration E -> @Configuration E) :
  (forall sheet c, s (k sheet c) = s c) ->
  exists m, overlays (fun c => match resource path with
                               | None => qWarning msg c
                               | Some sheet => k sheet c
                               end) m.
Proof.
  intros Hk. exists ∅. apply overlays_same_store. intros c.
  destruct (resource path); [apply Hk | reflexivity].
Qed.

Ltac overlay_block :=
  apply overlays_run; repeat (apply Forall_cons; split);
  try apply Forall_nil;
  try (eexists; apply overlays_setColor);
  try (apply overlays_resource_or_warn; reflexivity);
  try (exists ∅; apply overlays_same_store; reflexivity).

Lemma overlay_loadBaseThemeNative : exists m, overlays (E:=E) loadBaseThemeNative m.
Proof. unfold loadBaseThemeNative. overlay_block. Qed.

Lemma overlay_loadNativeTheme_dark : exists m, overlays (E:=E) loadNativeTheme_dark m.
Proof. unfold loadNativeTheme_dark. overlay_block. Qed.

Lemma overlay_loadNativeTheme_light : exists m, overlays (E:=E) loadNativeTheme_light m.
Proof. unfold loadNativeTheme_light. overlay_block. Qed.

Lemma overlay_loadLightTheme : exists m, overlays (E:=E) loadLightTheme m.
Proof. unfold loadLightTheme. overlay_block. Qed.

Lemma overlay_loadBaseThemeDark : exists m, overlays (E:=E) loadBaseThemeDark m.
Proof. unfold loadBaseThemeDark. overlay_block. Qed.

Lemma overlay_loadDarkTheme : exists m, overlays (E:=E) loadDarkTheme m.
Proof.
  pose proof overlay_loadBaseThemeDark.
  unfold loadDarkTheme. overlay_block. assumption.
Qed.

(** The table of a loader is fixed by the index and the native palette. *)
Lemma overlay_loader_of i (np : QPalette) :
  exists m, forall c, nativePalette c = np -> s (loader_of (E:=E) (clamped i) c) = m ∪ s c.
Proof.
  destruct (clamped_range i) as [-> | [-> | ->]]; cbn [loader_of].
  - destruct overlay_loadBaseThemeNative as [mb Hb].
    destruct overlay_loadNativeTheme_dark as [md Hd].
    destruct overlay_loadNativeTheme_light as [ml Hl].
    exists (if window_sum_dark np then md ∪ mb else ml ∪ mb).
    intros c <-. unfold loadNativeTheme_resolved. cbv zeta.
    destruct (window_sum_dark (nativePalette c)).
    + rewrite Hd, Hb. apply (assoc_L (∪)).
    + rewrite Hl, Hb. apply (assoc_L (∪)).
  - destruct overlay_loadDarkTheme as [m Hm]. exists m. intros c _. apply Hm.
  - destruct overlay_loadLightTheme as [m Hm]. exists m. intros c _. apply Hm.
Qed.

Lemma overlay_setInterfaceTheme i (np : QPalette) :
  exists m, forall fuel c c',
    nativePalette c = np ->
    setInterfaceTheme (S fuel) i c = Some c' ->
    s c' = m ∪ s c.
Proof.
  destruct (overlay_loader_of i np) as [m Hm].
  exists (m ∪ {[ "ColorPalette" := QVInt (clamped i) ]}).
  intros fuel c c' Hnp. rewrite setInterfaceTheme_resolved. intros [= <-].
  cbn [s emit]. rewrite Hm by exact Hnp. cbn [s with_s]. unfold setValue.
  rewrite insert_union_singleton_l. apply (assoc_L (∪)).
Qed.

Lemma setInterfaceTheme_nativePalette fuel i c c' :
  setInterfaceTheme (S fuel) i c = Some c' -> nativePalette c' = nativePalette c.
Proof.
  rewrite setInterfaceTheme_resolved. intros [= <-].
  destruct (frames_loader_of (clamped i)
              (with_s (setValue "ColorPalette" (QVInt (clamped i))) c))
    as (_ & _ & Hnp & _).
  cbn [nativePalette emit]. rewrite Hnp. reflexivity.
Qed.

(** X5. A theme load only lays a table over the durable store: what
    [setInterfaceTheme(i)] leaves in the store is what it leaves over an
    empty store, laid over the former store. No key is removed and none is
    read. *)
Theorem setInterfaceTheme_overlays_store fuel i c :
  exists c' c0,
    setInterfaceTheme (S fuel) i c = Some c' /\
    setInterfaceTheme (S fuel) i (cleared c) = Some c0 /\
    s c' = s c0 ∪ s c.
Proof.
  destruct (overlay_setInterfaceTheme i (nativePalette c)) as [m Hm].
  destruct (setInterfaceTheme (S fuel) i c) as [c'|] eqn:Hset.
  2:{ rewrite setInterfaceTheme_resolved in Hset. discriminate. }
  destruct (setInterfaceTheme (S fuel) i (cleared c)) as [c0|] eqn:Hset0.
  2:{ rewrite setInterfaceTheme_resolved in Hset0. discriminate. }
  exists c', c0. repeat split.
  rewrite (Hm fuel c c' eq_refl Hset), (Hm fuel (cleared c) c0 eq_refl Hset0). cbn [s cleared with_s].
  now rewrite (right_id_L ∅ (∪)).
Qed.

(** ** What a theme load does to the GUI *)

Lemma loader_of_gui i c :
  let c' := loader_of (clamped i) c in
  match resource (stylesheet_of (clamped i)).1 with
  | None =>
      warnings c' = warnings c ++ [(stylesheet_of (clamped i)).2] /\
      styleSheet c' = styleSheet c /\
      palette c' = (if clamped i =? 0 then nativePalette c else palette c)
  | Some sheet =>
      warnings c' = warnings c /\
      styleSheet c'
      = (if (clamped i =? 1) && Q_OS_MACX then sheet +:+ macx_dock_title else sheet) /\
      palette c'
      = match clamped i with
        | 1 => QPalette_setText Qt_white (palette c)
        | 2 => QPalette_setText Qt_black (palette c)
        | _ => nativePalette c
        end
  end /\
  allWidgets c'
  = (if clamped i =? 0 then map (fun _ => nativePalette c) (allWidgets c)
     else allWidgets c).
Proof.
  destruct (clamped_range i) as [-> | [-> | ->]];
    cbn [loader_of stylesheet_of fst snd Z.eqb Pos.eqb andb].
  - unfold loadNativeTheme_resolved, loadNativeTheme_dark, loadNativeTheme_light,
      loadBaseThemeNative, run.
    cbn [foldl]. destruct (window_sum_dark (nativePalette c));
      destruct (resource ":native/native.qss"); repeat split.
  - unfold loadDarkTheme, loadBaseThemeDark, run. cbn [foldl].
    destruct (resource ":qdarkstyle/style.qss"); repeat split.
  - unfold loadLightTheme, run. cbn [foldl].
    destruct (resource ":lightstyle/light.qss"); repeat split.
Qed.

Lemma setInterfaceTheme_gui fuel i c c' :
  setInterfaceTheme (S fuel) i c = Some c' ->
  match resource (stylesheet_of (clamped i)).1 with
  | None =>
      warnings c' = warnings c ++ [(stylesheet_of (clamped i)).2] /\
      styleSheet c' = styleSheet c /\
      palette c' = (if clamped i =? 0 then nativePalette c else palette c)
  | Some sheet =>
      warnings c' = warnings c /\
      styleSheet c'
      = (if (clamped i =? 1) && Q_OS_MACX then sheet +:+ macx_dock_title else sheet) /\
      palette c'
      = match clamped i with
        | 1 => QPalette_setText Qt_white (palette c)
        | 2 => QPalette_setText Qt_black (palette c)
        | _ => nativePalette c
        end
  end /\
  allWidgets c'
  = (if clamped i =? 0 then map (fun _ => nativePalette c) (allWidgets c)
     else allWidgets c).
Proof.
  rewrite setInterfaceTheme_resolved. intros [= <-].
  exact (loader_of_gui i (with_s (setValue "ColorPalette" (QVInt (clamped i))) c)).
Qed.

(** X6. The style sheet of a theme is optional. When the resource of the
    selected theme is missing, [setInterfaceTheme] logs one warning, leaves
    the style sheet as it was and, for Dark and Light, the palette too;
    when it exists, nothing is logged, the style sheet is the resource
    (with the dock title rule appended for Dark under Q_OS_MACX) and the
    palette text colour is white for Dark and black for Light. Native puts
    the native palette in place either way, on the application and on every
    widget. *)
Theorem setInterfaceTheme_stylesheet_or_warning fuel i c :
  exists c',
    setInterfaceTheme (S fuel) i c = Some c' /\
    match resource (stylesheet_of (clamped i)).1 with
    | None =>
        warnings c' = warnings c ++ [(stylesheet_of (clamped i)).2] /\
        styleSheet c' = styleSheet c /\
        palette c' = (if clamped i =? 0 then nativePalette c else palette c)
    | Some sheet =>
        warnings c' = warnings c /\
        styleSheet c'
        = (if (clamped i =? 1) && Q_OS_MACX then sheet +:+ macx_dock_title else sheet) /\
        palette c'
        = match clamped i with
          | 1 => QPalette_setText Qt_white (palette c)
          | 2 => QPalette_setText Qt_black (palette c)
          | _ => nativePalette c
          end
    end /\
    allWidgets c'
    = (if clamped i =? 0 then map (fun _ => nativePalette c) (allWidgets c)
       else allWidgets c).
Proof.
  destruct (setInterfaceTheme (S fuel) i c) as [c'|] eqn:Hset.
  2:{ rewrite setInterfaceTheme_resolved in Hset. discriminate. }
  exists c'. split; [reflexivity|]. now apply (setInterfaceTheme_gui fuel).
Qed.

(** X7. Selecting the theme that is selected already changes nothing but
    the logs: after a second [setInterfaceTheme(i)] the durable store, the
    palette, the style sheet, the widgets and the engine are as the first
    call left them; the two signals are emitted once more. *)
Theorem setInterfaceTheme_reselect fuel i c :
  exists c1 c2,
    setInterfaceTheme (S fuel) i c = Some c1 /\
    setInterfaceTheme (S fuel) i c1 = Some c2 /\
    s c2 = s c1 /\
    palette c2 = palette c1 /\
    styleSheet c2 = styleSheet c1 /\
    allWidgets c2 = allWidgets c1 /\
    core c2 = core c1 /\
    emitted c2 = emitted c1 ++ [interfaceThemeChanged; colorsUpdated].
Proof.
  destruct (setInterfaceTheme (S fuel) i c) as [c1|] eqn:Hset1.
  2:{ rewrite setInterfaceTheme_resolved in Hset1. discriminate. }
  destruct (setInterfaceTheme (S fuel) i c1) as [c2|] eqn:Hset2.
  2:{ rewrite setInterfaceTheme_resolved in Hset2. discriminate. }
  exists c1, c2. split; [reflexivity|]. split; [exact Hset2|].
  pose proof (setInterfaceTheme_nativePalette _ _ _ _ Hset1) as Hnp.
  destruct (setInterfaceTheme_persists _ _ _ _ Hset2) as (_ & Hem & Hcore & _).
  destruct (setInterfaceTheme_gui _ _ _ _ Hset1) as (Hr1 & Hw1).
  destruct (setInterfaceTheme_gui _ _ _ _ Hset2) as (Hr2 & Hw2).
  split.
  { destruct (overlay_setInterfaceTheme i (nativePalette c)) as [m Hm].
    rewrite (Hm fuel c1 c2 Hnp Hset2), (Hm fuel c c1 eq_refl Hset1).
    now rewrite (assoc_L (∪)), (idemp (∪) m). }
  repeat split; try assumption.
  - destruct (resource _); destruct Hr1 as (_ & _ & Hp1), Hr2 as (_ & _ & Hp2);
      rewrite Hp2, Hp1, ?Hnp;
      destruct (clamped_range i) as [-> | [-> | ->]]; reflexivity.
  - destruct (resource _); destruct Hr1 as (_ & Hs1 & _), Hr2 as (_ & Hs2 & _);
      rewrite Hs2, Hs1; reflexivity.
  - rewrite Hw2, Hw1, Hnp. destruct (clamped i =? 0); [|reflexivity].
    rewrite map_map. reflexivity.
Qed.

(** ** Light or dark after a theme switch *)

Ltac color_lookup :=
  cbn [run foldl];
  repeat first
    [ rewrite getColor_setColor_same; reflexivity
    | rewrite getColor_setColor_other by discriminate ].

Lemma getColor_emit k sig c : getColor k (emit sig c) = getColor k c.
Proof. reflexivity. Qed.

(** X8. The Native theme follows the palette the process started with:
    after [setInterfaceTheme(0)] the live palette is the native palette,
    [windowColorIsDark()] is the sum-of-channels test on it and changes
    nothing, and the background colour is the dark one (30, 30, 30) exactly
    when that test holds, white otherwise. *)
Theorem native_theme_follows_native_palette fuel c :
  exists c',
    setInterfaceTheme (S fuel) 0 c = Some c' /\
    palette c' = nativePalette c /\
    (forall fuel',
       windowColorIsDark fuel' c' = Some (window_sum_dark (nativePalette c), c')) /\
    getColor "gui.background" c'
    = (if window_sum_dark (nativePalette c)
       then QColor_rgb 30 30 30 else QColor_rgb 255 255 255).
Proof.
  destruct (setInterfaceTheme (S fuel) 0 c) as [c'|] eqn:Hset.
  2:{ rewrite setInterfaceTheme_resolved in Hset. discriminate. }
  exists c'. split; [reflexivity|].
  pose proof (setInterfaceTheme_index _ _ _ _ Hset) as Hidx.
  destruct (setInterfaceTheme_gui _ _ _ _ Hset) as (Hr & _).
  assert (Hpal : palette c' = nativePalette c).
  { cbn in Hr. destruct (resource _); destruct Hr as (_ & _ & Hp); exact Hp. }
  split; [exact Hpal|]. split.
  - intros fuel'. rewrite windowColorIsDark_stored by (rewrite Hidx; cbn; lia).
    rewrite Hidx, Hpal. reflexivity.
  - rewrite setInterfaceTheme_resolved in Hset. injection Hset as <-.
    cbn [loader_of clamped Z.geb Z.ltb Z.compare orb].
    rewrite !getColor_emit.
    unfold loadNativeTheme_resolved. cbv zeta. cbn [nativePalette with_s].
    destruct (window_sum_dark (nativePalette c)).
    + unfold loadNativeTheme_dark. color_lookup.
    + unfold loadNativeTheme_light. color_lookup.
Qed.

(** X9. The logo follows the interface theme: with Dark selected
    [getLogoFile()] is the white logo and with Light selected the plain
    one, whatever the live palette is, and the call changes nothing. *)
Theorem getLogoFile_follows_theme fuel c :
  exists cd cl,
    setInterfaceTheme (S fuel) 1 c = Some cd /\
    setInterfaceTheme (S fuel) 2 c = Some cl /\
    forall fuel' live,
      getLogoFile fuel' (setPalette live cd)
      = Some (":/img/cutter_white_plain.svg", setPalette live cd) /\
      getLogoFile fuel' (setPalette live cl)
      = Some (":/img/cutter_plain.svg", setPalette live cl).
Proof.
  destruct (setInterfaceTheme (S fuel) 1 c) as [cd|] eqn:Hd.
  2:{ rewrite setInterfaceTheme_resolved in Hd. discriminate. }
  destruct (setInterfaceTheme (S fuel) 2 c) as [cl|] eqn:Hl.
  2:{ rewrite setInterfaceTheme_resolved in Hl. discriminate. }
  exists cd, cl. split; [reflexivity|]. split; [reflexivity|].
  apply setInterfaceTheme_index in Hd, Hl.
  change (clamped 1) with 1 in Hd. change (clamped 2) with 2 in Hl.
  intros fuel' live. unfold getLogoFile.
  rewrite !windowColorIsDark_stored
    by (change (getInterfaceTheme (setPalette live ?x)) with (getInterfaceTheme x);
        lia).
  change (getInterfaceTheme (setPalette live cd)) with (getInterfaceTheme cd).
  change (getInterfaceTheme (setPalette live cl)) with (getInterfaceTheme cl).
  rewrite Hd, Hl. split; reflexivity.
Qed.

(** X10. The Light theme leaves alone the colours it has no entry for: the
    control flow, data offset, imports, main, breakpoint and item colours
    and all navigation bar colours but empty and err read after
    [setInterfaceTheme(2)] what they read before, so they stay as the
    theme selected before left them. *)
Theorem light_theme_leaves_unlisted_colors fuel c :
  exists c',
    setInterfaceTheme (S fuel) 2 c = Some c' /\
    Forall (fun k => getColor k c' = getColor k c)
      [ "gui.cflow"; "gui.dataoffset"; "gui.imports"; "gui.main";
        "gui.navbar.seek"; "gui.navbar.pc"; "gui.navbar.code"; "gui.navbar.str";
        "gui.navbar.sym"; "gui.breakpoint_background"; "gui.item_invalid";
        "gui.item_unsafe" ].
Proof.
  rewrite setInterfaceTheme_resolved. eexists. split; [reflexivity|].
  cbn [loader_of clamped Z.geb Z.ltb Z.compare Pos.compare Pos.compare_cont orb].
  assert (Hgui : forall k,
            getColor k
              (match resource ":lightstyle/light.qss" with
               | None => qWarning "Can't find Light theme stylesheet."
                           (with_s (setValue "ColorPalette" (QVInt 2)) c)
               | Some stylesheet =>
                   setStyleSheet stylesheet
                     (setPalette (QPalette_setText Qt_black
                        (palette (with_s (setValue "ColorPalette" (QVInt 2)) c)))
                        (with_s (setValue "ColorPalette" (QVInt 2)) c))
               end) = getColor k c).
  { intros k. destruct (resource _); unfold getColor, contains, value, setValue;
      cbn [s with_s setStyleSheet setPalette qWarning];
      change "colors.other" with ("colors." +:+ "other");
      rewrite !lookup_insert_ne by apply ColorPalette_not_color; reflexivity. }
  repeat apply Forall_cons_2; try apply Forall_nil_2;
    rewrite !getColor_emit;
    unfold loadLightTheme; cbn [run foldl];
    repeat (rewrite getColor_setColor_other by discriminate);
    apply Hgui.
Qed.

(** ** The colour theme *)

Lemma setColorTheme_colors_effect t c :
  core (setColorTheme_colors t c)
  = core_cmd (if String.eqb t "default" then "ecd" else "eco " +:+ t) (core c) /\
  s (setColorTheme_colors t c) !! "theme" = Some (QVString t).
Proof.
  unfold setColorTheme_colors. cbv zeta.
  destruct (String.eqb t "default") eqn:Ht;
    match goal with
    | |- context [foldl setColorTheme_entry ?c0 ?l] =>
        destruct (frames_setColorTheme_entries l c0) as (Hcore & _ & _ & Hs)
    end;
    rewrite Hcore, Hs by apply theme_not_color; cbn; unfold setValue;
    rewrite lookup_insert_eq; (split; [reflexivity|]).
  - apply String.eqb_eq in Ht. now subst t.
  - reflexivity.
Qed.

Lemma setColorTheme_effect fuel t c :
  exists c',
    setColorTheme (S fuel) t c = Some c' /\
    core c' = core_cmd (if String.eqb t "default" then "ecd" else "eco " +:+ t) (core c) /\
    s c' !! "theme" = Some (QVString t) /\
    s c' !! "ColorPalette"
    = (if themeWorker_isCustomTheme t (core c')
       then s c !! "ColorPalette"
       else Some (QVInt (clamped (getInterfaceTheme c)))) /\
    (exists sigs, emitted c' = emitted c ++ sigs ++ [colorsUpdated]) /\
    forall key, key <> "theme" -> key <> "ColorPalette" ->
      (forall n, key <> "colors." +:+ n) -> s c' !! key = s c !! key.
Proof.
  destruct (setColorTheme_colors_effect t c) as (Hcore & Htheme).
  destruct (setColorTheme_colors_keeps t c) as (Hem & Hs).
  assert (Hidx : getInterfaceTheme (setColorTheme_colors t c) = getInterfaceTheme c).
  { unfold getInterfaceTheme, value.
    rewrite Hs; [reflexivity|discriminate|]. apply ColorPalette_not_color. }
  unfold setColorTheme. cbv zeta.
  destruct (themeWorker_isCustomTheme t (core (setColorTheme_colors t c))) eqn:Hcustom;
    cbn [negb].
  - eexists. split; [reflexivity|]. cbn [core s emit emitted].
    rewrite Hcustom. repeat split; try assumption.
    + apply Hs; [discriminate|apply ColorPalette_not_color].
    + exists []. rewrite Hem. reflexivity.
    + intros key Hk1 _ Hk3. now apply Hs.
  - destruct (setInterfaceTheme (S fuel) (getInterfaceTheme (setColorTheme_colors t c))
                (setColorTheme_colors t c)) as [c2|] eqn:Hset.
    2:{ rewrite setInterfaceTheme_resolved in Hset. discriminate. }
    destruct (setInterfaceTheme_persists _ _ _ _ Hset) as (Hs2 & Hem2 & Hcore2 & Hframe).
    eexists. split; [reflexivity|]. cbn [core s emit emitted].
    rewrite Hcore2, Hcustom. repeat split.
    + exact Hcore.
    + rewrite Hframe; [exact Htheme|discriminate|apply theme_not_color].
    + rewrite Hs2, Hidx. reflexivity.
    + exists [interfaceThemeChanged; colorsUpdated].
      rewrite Hem2, Hem, <- !app_assoc. reflexivity.
    + intros key Hk1 Hk2 Hk3. rewrite Hframe by assumption. now apply Hs.
Qed.

(** X11. [setColorTheme(t)] persists the name and tells the engine:
    afterwards [getColorTheme()] returns t, the engine has received the
    reset directive ecd for the name default and the load directive eco t
    for any other name and nothing else, the last signal emitted is
    colorsUpdated, and the interface theme index is the one stored before,
    clamped into range when the interface theme was loaded again. *)
Theorem setColorTheme_persists_name fuel t c :
  exists c',
    setColorTheme (S fuel) t c = Some c' /\
    getColorTheme c' = t /\
    core c' = core_cmd (if String.eqb t "default" then "ecd" else "eco " +:+ t) (core c) /\
    last (emitted c') = Some colorsUpdated /\
    getInterfaceTheme c'
    = (if themeWorker_isCustomTheme t (core c')
       then getInterfaceTheme c else clamped (getInterfaceTheme c)).
Proof.
  destruct (setColorTheme_effect fuel t c)
    as (c' & Hset & Hcore & Htheme & Hidx & (sigs & Hem) & _).
  exists c'. repeat split; try assumption.
  - unfold getColorTheme, value. rewrite Htheme. reflexivity.
  - rewrite Hem, !app_assoc. apply last_snoc.
  - unfold getInterfaceTheme at 1. unfold value. rewrite Hidx.
    destruct (themeWorker_isCustomTheme t (core c')); reflexivity.
Qed.

Lemma setColorTheme_entries_untouched (l : list (string * QJsonValue)) k c :
  k ∉ l.*1 ->
  s (foldl setColorTheme_entry c l) !! ("colors." +:+ k) = s c !! ("colors." +:+ k).
Proof.
  revert c. induction l as [|[k0 v0] l IH]; intros c Hnotin; [reflexivity|].
  cbn in Hnotin. apply not_elem_of_cons in Hnotin as [Hne Hnotin].
  cbn [foldl]. rewrite IH by assumption.
  unfold setColorTheme_entry. cbn [fst snd].
  destruct (negb _); [reflexivity|].
  cbn. unfold setValue. rewrite lookup_insert_ne; [reflexivity|].
  intros Heq. apply (inj (String.append _)) in Heq. congruence.
Qed.

Lemma setColorTheme_entries_lookup (l : list (string * QJsonValue)) k rgb c :
  NoDup l.*1 ->
  (k, JArray rgb) ∈ l ->
  s (foldl setColorTheme_entry c l) !! ("colors." +:+ k)
  = if Nat.eqb (length rgb) 4
    then Some (QVColor (QColor_rgba (QJsonArray_int_at rgb 0) (QJsonArray_int_at rgb 1)
                                    (QJsonArray_int_at rgb 2) (QJsonArray_int_at rgb 3)))
    else s c !! ("colors." +:+ k).
Proof.
  revert c. induction l as [|[k0 v0] l IH]; intros c Hnd Hin.
  - now apply elem_of_nil in Hin.
  - cbn in Hnd. apply NoDup_cons in Hnd as [Hnotin Hnd].
    apply elem_of_cons in Hin as [[= <- <-] | Hin].
    + cbn [foldl]. rewrite setColorTheme_entries_untouched by assumption.
      unfold setColorTheme_entry. cbn [fst snd QJsonValue_toArray].
      destruct (Nat.eqb (length rgb) 4); cbn [negb]; [|reflexivity].
      cbn. unfold setValue. apply lookup_insert_eq.
    + cbn [foldl]. rewrite IH by assumption.
      destruct (Nat.eqb (length rgb) 4); [reflexivity|].
      unfold setColorTheme_entry. cbn [fst snd].
      destruct (negb _); [reflexivity|].
      cbn. unfold setValue. rewrite lookup_insert_ne; [reflexivity|].
      intros Heq. apply (inj (String.append _)) in Heq. subst k0.
      apply Hnotin. apply list_elem_of_fmap. exists (k, JArray rgb). split; [reflexivity|exact Hin].
Qed.

(** X12. The colours of a custom theme are the ones read afterwards: for a
    custom theme whose object has the entry k with an array of four
    elements, [getColor(k)] after [setColorTheme] is the colour built from
    what [toInt] gives for the four elements (0 for an element that is no
    integral number or does not fit an [int]); that is the invalid colour,
    not the fallback, as soon as one of these four integers is outside
    0..255. An entry whose array has another size is skipped and leaves
    what the cache held under k. *)
Theorem setColorTheme_custom_colors fuel t c k rgb :
  themeWorker_isCustomTheme t (core (setColorTheme_colors t c)) = true ->
  NoDup (themeWorker_getTheme t (core (setColorTheme_colors t c))).*1 ->
  (k, JArray rgb) ∈ themeWorker_getTheme t (core (setColorTheme_colors t c)) ->
  exists c',
    setColorTheme fuel t c = Some c' /\
    if Nat.eqb (length rgb) 4
    then getColor k c'
         = QColor_rgba (QJsonArray_int_at rgb 0) (QJsonArray_int_at rgb 1)
                       (QJsonArray_int_at rgb 2) (QJsonArray_int_at rgb 3)
    else s c' !! ("colors." +:+ k) = s c !! ("colors." +:+ k).
Proof.
  intros Hcustom Hnd Hin.
  rewrite (setColorTheme_custom fuel t c Hcustom). eexists. split; [reflexivity|].
  destruct (setColorTheme_colors_effect t c) as (Hcore & _).
  rewrite Hcore in Hnd, Hin.
  assert (Hlook := fun c0 => setColorTheme_entries_lookup _ k rgb c0 Hnd Hin).
  unfold getColor, contains, value. cbn [s emit].
  unfold setColorTheme_colors. cbv zeta.
  destruct (String.eqb t "default") eqn:Ht; cbn [core with_s with_core] in *;
    rewrite Hlook; destruct (Nat.eqb (length rgb) 4);
    try (rewrite bool_decide_eq_true_2 by eauto; reflexivity);
    cbn; unfold setValue; rewrite lookup_insert_ne; try reflexivity;
    change "theme" with ("" +:+ "theme"); discriminate.
Qed.

(** ** Start-up and reset *)

(** The keys of the catalogue are no keys of the theme state, of the colour
    cache or of the first-run flag. *)
Lemma asmOptions_keys_apart key :
  is_Some (asmOptions !! key) ->
  key <> "theme" /\ key <> "ColorPalette" /\ key <> "firstExecution" /\
  forall n, key <> "colors." +:+ n.
Proof.
  intros Hin. apply asmOptions_recognized in Hin. unfold asmOptions_entries in Hin.
  cbn [fmap list_fmap fst] in Hin.
  repeat (apply elem_of_cons in Hin as [-> | Hin]);
    [repeat split; try intros n; discriminate ..|].
  now apply elem_of_nil in Hin.
Qed.

Lemma saved_writes_same_options (st st' : gmap string QVariant)
    (order : list (string * QVariant)) (e : E) :
  Forall (fun it => st' !! it.1 = st !! it.1) order ->
  saved_writes st' order e = saved_writes st order e.
Proof.
  revert e. induction order as [|[key d] order IH]; intros e Hall; [reflexivity|].
  apply Forall_cons in Hall as [Hkey Hall]. cbn [fst] in Hkey.
  unfold saved_writes in *. cbn [foldl fst snd].
  assert (Hv : value key d st' = value key d st) by (unfold value; now rewrite Hkey).
  rewrite Hv. now apply IH.
Qed.

Lemma clamped_idemp i : clamped (clamped i) = clamped i.
Proof. destruct (clamped_range i) as [-> | [-> | ->]]; reflexivity. Qed.

Lemma loadInitial_effect fuel (order : list (string * QVariant)) c :
  exists c',
    loadInitial (S fuel) order c = Some c' /\
    s c' !! "ColorPalette" = Some (QVInt (clamped (getInterfaceTheme c))) /\
    s c' !! "theme" = Some (QVString (getColorTheme c)) /\
    (forall key, key <> "theme" -> key <> "ColorPalette" ->
       (forall n, key <> "colors." +:+ n) -> s c' !! key = s c !! key) /\
    core c'
    = saved_writes (s c') order
        (core_cmd (if String.eqb (getColorTheme c) "default" then "ecd"
                   else "eco " +:+ getColorTheme c) (core c)) /\
    exists sigs, emitted c' = emitted c ++ sigs ++ [colorsUpdated].
Proof.
  unfold loadInitial.
  destruct (setInterfaceTheme (S fuel) (getInterfaceTheme c) c) as [c1|] eqn:Hset.
  2:{ rewrite setInterfaceTheme_resolved in Hset. discriminate. }
  destruct (setInterfaceTheme_persists _ _ _ _ Hset) as (Hs1 & Hem1 & Hcore1 & Hframe1).
  pose proof (setInterfaceTheme_index _ _ _ _ Hset) as Hidx1.
  assert (Hth1 : getColorTheme c1 = getColorTheme c).
  { apply getColorTheme_same_store, Hframe1; [discriminate|apply theme_not_color]. }
  cbn [mbind option_bind].
  destruct (setColorTheme_effect fuel (getColorTheme c1) c1)
    as (c2 & Hset2 & Hcore2 & Htheme2 & Hidx2 & (sigs & Hem2) & Hframe2).
  rewrite Hset2. cbn [mbind option_bind]. eexists. split; [reflexivity|].
  rewrite applySavedAsmOptions_fold. cbn [s core with_core emitted].
  rewrite Hth1 in *. rewrite Hcore2, Hcore1. repeat split.
  - rewrite Hidx2, Hidx1, clamped_idemp, Hs1.
    now destruct (themeWorker_isCustomTheme _ _).
  - exact Htheme2.
  - intros key Hk1 Hk2 Hk3. rewrite Hframe2, Hframe1 by assumption. reflexivity.
  - exists ([interfaceThemeChanged; colorsUpdated] ++ sigs).
    rewrite Hem2, Hem1, <- !app_assoc. reflexivity.
Qed.

(** X13. [loadInitial()] returns, and makes the defaults it used explicit:
    afterwards the store holds the interface theme index, clamped into
    range, and the colour theme name it started from, while every option of
    the catalogue is in the store exactly as before; the engine has
    received the directive of the colour theme and then, for every
    catalogue key, the persisted value or else the compiled-in default. *)
Theorem loadInitial_persists_theme_state fuel (order : list (string * QVariant)) c :
  iteration_of asmOptions order ->
  exists c',
    loadInitial (S fuel) order c = Some c' /\
    getInterfaceTheme c' = clamped (getInterfaceTheme c) /\
    getColorTheme c' = getColorTheme c /\
    s c' !! "theme" = Some (QVString (getColorTheme c)) /\
    (forall key, is_Some (asmOptions !! key) -> s c' !! key = s c !! key) /\
    core c'
    = saved_writes (s c) order
        (core_cmd (if String.eqb (getColorTheme c) "default" then "ecd"
                   else "eco " +:+ getColorTheme c) (core c)).
Proof.
  intros Hit.
  destruct (loadInitial_effect fuel order c)
    as (c' & Hload & Hidx & Htheme & Hframe & Hcore & _).
  assert (Hopts : forall key, is_Some (asmOptions !! key) -> s c' !! key = s c !! key).
  { intros key Hkey. destruct (asmOptions_keys_apart key Hkey) as (? & ? & _ & ?).
    now apply Hframe. }
  exists c'. repeat split; try assumption.
  - unfold getInterfaceTheme at 1. unfold value. rewrite Hidx. reflexivity.
  - unfold getColorTheme at 1. unfold value. rewrite Htheme. reflexivity.
  - rewrite Hcore. apply saved_writes_same_options.
    pose proof (iteration_recognized order Hit) as Hall.
    eapply Forall_impl; [exact Hall|]. intros [key d] Hkd. cbn in *.
    apply Hopts. rewrite Hkd. eauto.
Qed.

Lemma saved_writes_absent (st : gmap string QVariant)
    (order : list (string * QVariant)) (e : E) :
  Forall (fun it => st !! it.1 = None) order ->
  saved_writes st order e = default_writes order e.
Proof.
  revert e. induction order as [|[key d] order IH]; intros e Hall; [reflexivity|].
  apply Forall_cons in Hall as [Hkey Hall]. cbn [fst] in Hkey.
  unfold saved_writes, default_writes in *. cbn [foldl fst snd].
  assert (Hv : value key d st = d) by (unfold value; now rewrite Hkey).
  rewrite Hv. now apply IH.
Qed.

Lemma resetAll_effect fuel (order : list (string * QVariant)) c :
  exists c',
    resetAll (S fuel) order c = Some c' /\
    s c' !! "ColorPalette" = Some (QVInt 0) /\
    s c' !! "theme" = Some (QVString defaultColorTheme) /\
    (forall key, key <> "theme" -> key <> "ColorPalette" ->
       (forall n, key <> "colors." +:+ n) -> s c' !! key = None) /\
    core c'
    = saved_writes (s c') order
        (core_cmd (if String.eqb defaultColorTheme "default" then "ecd"
                   else "eco " +:+ defaultColorTheme)
           (core_setSettings (core_cmd "e-" (core c)))) /\
    last (emitted c') = Some fontsUpdated.
Proof.
  unfold resetAll. cbv zeta.
  match goal with
  | |- context [loadInitial (S fuel) order ?c0] =>
      destruct (loadInitial_effect fuel order c0)
        as (c1 & Hload & Hidx & Htheme & Hframe & Hcore & _)
  end.
  rewrite Hload. cbn [mbind option_bind]. eexists. split; [reflexivity|].
  cbn [s core emit emitted]. repeat split.
  - exact Hidx.
  - exact Htheme.
  - intros key Hk1 Hk2 Hk3. rewrite Hframe by assumption. apply lookup_empty.
  - exact Hcore.
  - apply last_snoc.
Qed.

(** X14. [resetAll()] starts over: whatever the durable store held, it
    returns with index 0 (Native) and the default colour theme name
    persisted and no option of the catalogue in the store; the engine has
    been cleared (e-), set up again, told the colour theme and given the
    compiled-in default of every catalogue key; fontsUpdated is the last
    signal. *)
Theorem resetAll_starts_over fuel (order : list (string * QVariant)) c :
  iteration_of asmOptions order ->
  exists c',
    resetAll (S fuel) order c = Some c' /\
    getInterfaceTheme c' = 0 /\
    getColorTheme c' = defaultColorTheme /\
    (forall key, is_Some (asmOptions !! key) -> s c' !! key = None) /\
    core c'
    = default_writes order
        (core_cmd (if String.eqb defaultColorTheme "default" then "ecd"
                   else "eco " +:+ defaultColorTheme)
           (core_setSettings (core_cmd "e-" (core c)))) /\
    last (emitted c') = Some fontsUpdated.
Proof.
  intros Hit.
  destruct (resetAll_effect fuel order c)
    as (c' & Hreset & Hidx & Htheme & Hframe & Hcore & Hlast).
  assert (Hopts : forall key, is_Some (asmOptions !! key) -> s c' !! key = None).
  { intros key Hkey. destruct (asmOptions_keys_apart key Hkey) as (? & ? & _ & ?).
    now apply Hframe. }
  exists c'. repeat split; try assumption.
  - unfold getInterfaceTheme, value. rewrite Hidx. reflexivity.
  - unfold getColorTheme, value. rewrite Htheme. reflexivity.
  - rewrite Hcore. apply saved_writes_absent.
    pose proof (iteration_recognized order Hit) as Hall.
    eapply Forall_impl; [exact Hall|]. intros [key d] Hkd. cbn in *.
    apply Hopts. rewrite Hkd. eauto.
Qed.

(** X15. [resetAll()] forgets the first-run flag: the next
    [isFirstExecution()] returns true, as on a machine where the program
    never ran. *)
Theorem resetAll_forgets_first_execution fuel (order : list (string * QVariant)) c :
  exists c',
    resetAll (S fuel) order c = Some c' /\
    (isFirstExecution c').1 = true /\
    (isFirstExecution (isFirstExecution c').2).1 = false.
Proof.
  destruct (resetAll_effect fuel order c) as (c' & Hreset & _ & _ & Hframe & _).
  exists c'. split; [exact Hreset|].
  assert (Hnone : s c' !! "firstExecution" = None).
  { apply Hframe; discriminate. }
  unfold isFirstExecution at 1 3. apply contains_false in Hnone. rewrite Hnone.
  cbn [fst snd]. split; [reflexivity|].
  unfold isFirstExecution.
  assert (Hc : contains "firstExecution"
                 (s (with_s (setValue "firstExecution" (QVBool false)) c')) = true).
  { apply contains_true. cbn. unfold setValue. rewrite lookup_insert_eq. eauto. }
  rewrite Hc. reflexivity.
Qed.

(** ** Preferences *)

(** X16. [getDirProjects()] asks the engine once: over a store without a
    projects directory it returns the engine's dir.projects with native
    separators and persists it; when that is not empty, a later call
    returns the persisted directory and changes nothing, whatever the
    engine says by then. *)
Theorem getDirProjects_asks_engine_once c (e' : E) :
  QVariant_toString (value "dir.projects" QVInvalid (s c)) = "" ->
  QDir_toNativeSeparators (core_getConfig "dir.projects" (core c)) <> "" ->
  (getDirProjects c).1
  = QDir_toNativeSeparators (core_getConfig "dir.projects" (core c)) /\
  s (getDirProjects c).2
  = <["dir.projects" := QVString (getDirProjects c).1]> (s c) /\
  getDirProjects (with_core (fun _ => e') (getDirProjects c).2)
  = (QDir_toNativeSeparators (getDirProjects c).1,
     with_core (fun _ => e') (getDirProjects c).2).
Proof.
  intros Hempty Hdir.
  assert (Hfirst : getDirProjects c
                   = (QDir_toNativeSeparators (core_getConfig "dir.projects" (core c)),
                      setDirProjects (core_getConfig "dir.projects" (core c)) c)).
  { unfold getDirProjects. cbv zeta. rewrite Hempty. reflexivity. }
  rewrite Hfirst. cbn [fst snd]. repeat split.
  unfold getDirProjects, setDirProjects. cbv zeta. cbn [s with_s with_core].
  rewrite value_setValue_same. cbn [QVariant_toString].
  apply String.eqb_neq in Hdir. rewrite Hdir. reflexivity.
Qed.

(** X17. The plain preferences read back what was written and have fixed
    values over a store that lacks them: the last-clicked tab reads 0, the
    auto-update switch reads false, and the recent folder is the home
    directory; a folder is passed through the native-separator conversion
    on writing and once more on reading. *)
Theorem preferences_round_trip (n : Z) (au : bool) (dir : string) c :
  getNewFileLastClicked (setNewFileLastClicked n c) = n /\
  getAutoUpdateEnabled (setAutoUpdateEnabled au c) = au /\
  getRecentFolder (setRecentFolder dir c)
  = QDir_toNativeSeparators (QDir_toNativeSeparators dir) /\
  getNewFileLastClicked (cleared c) = 0 /\
  getAutoUpdateEnabled (cleared c) = false /\
  getRecentFolder (cleared c) = QDir_toNativeSeparators QDir_homePath.
Proof.
  unfold getNewFileLastClicked, setNewFileLastClicked, getAutoUpdateEnabled,
    setAutoUpdateEnabled, getRecentFolder, setRecentFolder, cleared.
  cbn [s with_s]. rewrite !value_setValue_same. repeat split.
Qed.

(** ** Options between the store and the engine *)

Lemma applySavedAsmOptions_values (order : list (string * QVariant)) c :
  core (applySavedAsmOptions order c)
  = default_writes (saved_values (s c) order) (core c).
Proof.
  rewrite applySavedAsmOptions_fold. cbn [core with_core].
  apply saved_writes_default.
Qed.

(** X18. The durable store overrides the compiled-in defaults: after
    [setConfig(k, v)] on a key of the catalogue, the next
    [applySavedAsmOptions()] writes v for k, not the default, and for every
    other key what it would have written before. *)
Theorem setConfig_override_is_applied (order : list (string * QVariant)) key d v c :
  iteration_of asmOptions order ->
  asmOptions !! key = Some d ->
  core (applySavedAsmOptions order (setConfig key v c))
  = default_writes (saved_values (s (setConfig key v c)) order)
      (core_setConfig key v (core c)) /\
  saved_values (s (setConfig key v c)) order
  = map (fun it => if decide (it.1 = key) then (key, v) else it)
      (saved_values (s c) order) /\
  (key, v) ∈ saved_values (s (setConfig key v c)) order.
Proof.
  intros Hit Hd.
  assert (Hs : s (setConfig key v c) = <[key := v]> (s c)).
  { unfold setConfig.
    assert (Hc : contains key asmOptions = true)
      by (apply contains_true; rewrite Hd; eauto).
    rewrite Hc. reflexivity. }
  assert (Hcore : core (setConfig key v c) = core_setConfig key v (core c)).
  { unfold setConfig. destruct (contains key asmOptions); reflexivity. }
  split; [|split].
  - rewrite applySavedAsmOptions_values, Hcore. reflexivity.
  - rewrite Hs. unfold saved_values. rewrite map_map.
    apply map_ext. intros [key' d']. cbn [fst snd]. unfold value.
    destruct (decide (key' = key)) as [->|Hne].
    + now rewrite lookup_insert_eq.
    + now rewrite lookup_insert_ne by congruence.
  - rewrite Hs. unfold saved_values.
    apply list_elem_of_fmap. exists (key, d). split.
    + cbn. unfold value. now rewrite lookup_insert_eq.
    + unfold iteration_of in Hit. rewrite Hit. now apply elem_of_map_to_list.
Qed.

(** X19. After [resetToDefaultAsmOptions()] the store and the engine agree:
    over an engine that keeps the catalogue keys as independent cells,
    [applySavedAsmOptions()] right after it changes nothing at all. *)
Theorem applySavedAsmOptions_after_reset (order : list (string * QVariant)) c :
  iteration_of asmOptions order ->
  core_keyed (E:=E) ->
  applySavedAsmOptions order (resetToDefaultAsmOptions order c)
  = resetToDefaultAsmOptions order c.
Proof.
  intros Hit Hlaws.
  pose proof (iteration_recognized order Hit) as Hall.
  pose proof (iteration_keys_NoDup order Hit) as Hnd.
  rewrite applySavedAsmOptions_fold.
  rewrite resetToDefaultAsmOptions_fold by assumption.
  cbn [s with_s with_core core].
  rewrite foldl_insert_union, iteration_list_to_map by assumption.
  assert (Hsame : saved_writes (asmOptions ∪ s c) order
                    (default_writes order (core c))
                  = default_writes order (default_writes order (core c))).
  { rewrite saved_writes_default. f_equal.
    rewrite <- (map_id order) at 2. apply map_ext_Forall.
    eapply Forall_impl; [exact Hall|]. intros [key d] Hkd. cbn in *.
    unfold value. erewrite lookup_union_Some_l by exact Hkd. reflexivity. }
  unfold with_core at 1. cbn [s with_s with_core core nativePalette palette styleSheet
                               allWidgets warnings emitted].
  rewrite Hsame, default_writes_twice; [reflexivity|assumption| |assumption].
  eapply Forall_impl; [exact Hall|]. intros [key d] Hkd. cbn in *. rewrite Hkd. eauto.
Qed.
End MoreProperties.

(** * The further statements on concrete inputs *)

Section MoreReference.
#[local] Existing Instances refCore refQt refH refPaths.

Lemma setConfig_unrecognized_not_read_back_witness :
  asmOptions !! "bin.demangle" = None /\
  getConfigVar "bin.demangle"
    (setConfig "bin.demangle" (QVBool true) (ref_fresh ref_engine)) = QVInvalid.
Proof.
  assert (Hnone : asmOptions !! "bin.demangle" = None) by reflexivity.
  split; [exact Hnone|].
  exact (proj1 (proj2 (proj2
    (setConfig_unrecognized_not_read_back "bin.demangle" (QVBool true)
       (ref_fresh ref_engine) Hnone)))).
Defined.

(** The custom theme Wide: 4294967296 does not fit an [int] and reads 0, so
    gui.main is the valid colour (0, 1, 2); 300 is no colour channel, so
    gui.navbar.seek is the invalid colour. *)
Lemma setColorTheme_custom_colors_witness :
  themeWorker_isCustomTheme "Wide"
    (core (setColorTheme_colors "Wide" ref_dark_themes)) = true /\
  NoDup (themeWorker_getTheme "Wide"
           (core (setColorTheme_colors "Wide" ref_dark_themes))).*1 /\
  ("gui.main", JArray [JInt 4294967296; JInt 1; JInt 2; JInt 255])
  ∈ themeWorker_getTheme "Wide" (core (setColorTheme_colors "Wide" ref_dark_themes)) /\
  (c' ← setColorTheme 0 "Wide" ref_dark_themes;
   Some (getColor "gui.main" c', getColor "gui.navbar.seek" c'))
  = Some (mkQColor true 0 1 2 255, QColor_invalid).
Proof.
  assert (Hcustom : themeWorker_isCustomTheme "Wide"
                      (core (setColorTheme_colors "Wide" ref_dark_themes)) = true)
    by reflexivity.
  assert (Hnd : NoDup (themeWorker_getTheme "Wide"
                         (core (setColorTheme_colors "Wide" ref_dark_themes))).*1)
    by (apply (bool_decide_unpack _); vm_compute; exact I).
  assert (Hmain : ("gui.main", JArray [JInt 4294967296; JInt 1; JInt 2; JInt 255])
                  ∈ themeWorker_getTheme "Wide"
                      (core (setColorTheme_colors "Wide" ref_dark_themes)))
    by apply list_elem_of_here.
  assert (Hseek : ("gui.navbar.seek", JArray [JInt 300; JInt 0; JInt 0; JInt 255])
                  ∈ themeWorker_getTheme "Wide"
                      (core (setColorTheme_colors "Wide" ref_dark_themes)))
    by (apply list_elem_of_further, list_elem_of_here).
  split; [exact Hcustom|]. split; [exact Hnd|]. split; [exact Hmain|].
  destruct (setColorTheme_custom_colors 0 "Wide" ref_dark_themes "gui.main"
              [JInt 4294967296; JInt 1; JInt 2; JInt 255] Hcustom Hnd Hmain)
    as (c' & Hset & Hcol).
  destruct (setColorTheme_custom_colors 0 "Wide" ref_dark_themes "gui.navbar.seek"
              [JInt 300; JInt 0; JInt 0; JInt 255] Hcustom Hnd Hseek)
    as (c'' & Hset' & Hcol').
  rewrite Hset in Hset'. injection Hset' as <-.
  rewrite Hset. cbn [mbind option_bind]. cbn [length Nat.eqb] in Hcol, Hcol'.
  rewrite Hcol, Hcol'. reflexivity.
Defined.

Lemma loadInitial_persists_theme_state_witness :
  iteration_of asmOptions (map_to_list asmOptions) /\
  (c' ← loadInitial 1 (map_to_list asmOptions) (ref_fresh ref_engine);
   Some (getInterfaceTheme c', getColorTheme c'))
  = Some (0, "default").
Proof.
  assert (Hit : iteration_of asmOptions (map_to_list asmOptions))
    by (unfold iteration_of; reflexivity).
  split; [exact Hit|].
  destruct (loadInitial_persists_theme_state 0 (map_to_list asmOptions)
              (ref_fresh ref_engine) Hit) as (c' & Hload & Hidx & Hname & _).
  rewrite Hload. cbn [mbind option_bind]. rewrite Hidx, Hname. reflexivity.
Defined.

Lemma resetAll_starts_over_witness :
  iteration_of asmOptions (map_to_list asmOptions) /\
  (c' ← resetAll 1 (map_to_list asmOptions) ref_last_used;
   Some (getInterfaceTheme c', getColorTheme c'))
  = Some (0, "default").
Proof.
  assert (Hit : iteration_of asmOptions (map_to_list asmOptions))
    by (unfold iteration_of; reflexivity).
  split; [exact Hit|].
  destruct (resetAll_starts_over 0 (map_to_list asmOptions) ref_last_used Hit)
    as (c' & Hreset & Hidx & Hname & _).
  rewrite Hreset. cbn [mbind option_bind]. rewrite Hidx, Hname. reflexivity.
Defined.

Lemma getDirProjects_asks_engine_once_witness :
  QVariant_toString
    (value "dir.projects" QVInvalid
       (s (with_core (core_setConfig "dir.projects" (QVString "/work"))
             (ref_fresh ref_engine)))) = "" /\
  QDir_toNativeSeparators
    (core_getConfig "dir.projects"
       (core (with_core (core_setConfig "dir.projects" (QVString "/work"))
                (ref_fresh ref_engine)))) <> "" /\
  (getDirProjects
     (with_core (core_setConfig "dir.projects" (QVString "/work"))
        (ref_fresh ref_engine))).1 = "/work".
Proof.
  assert (Hempty : QVariant_toString
            (value "dir.projects" QVInvalid
               (s (with_core (core_setConfig "dir.projects" (QVString "/work"))
                     (ref_fresh ref_engine)))) = "") by reflexivity.
  assert (Hdir : QDir_toNativeSeparators
                    (core_getConfig "dir.projects"
                       (core (with_core (core_setConfig "dir.projects" (QVString "/work"))
                                (ref_fresh ref_engine)))) <> "")
    by (intros Heq; vm_compute in Heq; discriminate Heq).
  split; [exact Hempty|]. split; [exact Hdir|].
  exact (proj1
    (getDirProjects_asks_engine_once
       (with_core (core_setConfig "dir.projects" (QVString "/work"))
          (ref_fresh ref_engine))
       ref_engine Hempty Hdir)).
Defined.

Lemma setConfig_override_is_applied_witness :
  iteration_of asmOptions (map_to_list asmOptions) /\
  asmOptions !! "asm.tabs" = Some (QVInt 5) /\
  ("asm.tabs", QVInt 8)
  ∈ saved_values (s (setConfig "asm.tabs" (QVInt 8) (ref_fresh ref_engine)))
      (map_to_list asmOptions).
Proof.
  assert (Hit : iteration_of asmOptions (map_to_list asmOptions))
    by (unfold iteration_of; reflexivity).
  assert (Hd : asmOptions !! "asm.tabs" = Some (QVInt 5)) by reflexivity.
  split; [exact Hit|]. split; [exact Hd|].
  exact (proj2 (proj2
    (setConfig_override_is_applied (map_to_list asmOptions) "asm.tabs" (QVInt 5)
       (QVInt 8) (ref_fresh ref_engine) Hit Hd))).
Defined.

Lemma applySavedAsmOptions_after_reset_witness :
  iteration_of asmOptions (map_to_list asmOptions) /\
  core_keyed (E:=RefEngine) /\
  applySavedAsmOptions (map_to_list asmOptions)
    (resetToDefaultAsmOptions (map_to_list asmOptions) (ref_fresh ref_engine))
  = resetToDefaultAsmOptions (map_to_list asmOptions) (ref_fresh ref_engine).
Proof.
  assert (Hit : iteration_of asmOptions (map_to_list asmOptions))
    by (unfold iteration_of; reflexivity).
  split; [exact Hit|]. split; [exact refCore_keyed|].
  exact (applySavedAsmOptions_after_reset (map_to_list asmOptions)
           (ref_fresh ref_engine) Hit refCore_keyed).
Defined.
End MoreReference.
